(** * The SageMaker XGBoost training entry point

    A shallow embedding of [code/train_deploy_xgboost_with_dependencies.py]:
    the model loader [model_fn], the argument resolver [parse_args] and the
    driver [train], together with the parts of the Python runtime they lean
    on (POSIX path joining, [argparse], the file system, [pickle]).

    Python values that the script only passes around (fitted models, floats
    produced by [float()]) are kept abstract through the [Runtime] class;
    everything the script itself decides is executable. *)

From Corelib Require Import PrimFloat.
From Stdlib Require Import Strings.Byte Strings.Ascii.
From stdpp Require Import gmap strings list fin_maps pretty.

Set Warnings "-inexact-float,-register-all,-clear-no-such-hyp".
#[local] Open Scope string_scope.

(** ** Strings *)

Module Str.

(** [s.startswith(pre)] *)
Fixpoint startswith (s pre : string) {struct pre} : bool :=
  match pre, s with
  | "", _ => true
  | String _ _, "" => false
  | String c pre', String c' s' => Ascii.eqb c' c && startswith s' pre'
  end.

Fixpoint last (s : string) : option ascii :=
  match s with
  | "" => None
  | String c "" => Some c
  | String _ s' => last s'
  end.

(** [s.endswith(c)] for a one-character suffix. *)
Definition endswith_char (s : string) (c : ascii) : bool :=
  match last s with
  | Some c' => Ascii.eqb c' c
  | None => false
  end.

Fixpoint contains (c : ascii) (s : string) : bool :=
  match s with
  | "" => false
  | String c' s' => Ascii.eqb c' c || contains c s'
  end.

(** [s.split(c, 1)] when [c] occurs in [s]: the text before the first
    occurrence and the text after it. *)
Fixpoint split1 (c : ascii) (s : string) : option (string * string) :=
  match s with
  | "" => None
  | String c' s' =>
      if Ascii.eqb c' c then Some ("", s')
      else match split1 c s' with
           | Some (a, b) => Some (String c' a, b)
           | None => None
           end
  end.

(** [s.lstrip(c)] *)
Fixpoint lstrip (c : ascii) (s : string) : string :=
  match s with
  | String c' s' => if Ascii.eqb c' c then lstrip c s' else s
  | "" => ""
  end.

(** [s.replace(a, b)] for single characters. *)
Fixpoint replace (a b : ascii) (s : string) : string :=
  match s with
  | "" => ""
  | String c s' => String (if Ascii.eqb c a then b else c) (replace a b s')
  end.

Definition is_digit (c : ascii) : bool :=
  let n := nat_of_ascii c in (48 <=? n)%nat && (n <=? 57)%nat.

Fixpoint all_digits (s : string) : bool :=
  match s with
  | "" => true
  | String c s' => is_digit c && all_digits s'
  end.

(** One or more ASCII digits: the regular expression [\d+]. *)
Definition digits1 (s : string) : bool :=
  match s with
  | "" => false
  | _ => all_digits s
  end.

End Str.

(** ** Paths

    [posixpath.join] on two components, and the resolution of a path string
    to the file it names.  Resolution splits a path at [/], drops the empty
    components (so repeated and trailing separators are immaterial) and
    anchors a relative path at the working directory.  The components [.]
    and [..] and symbolic links are not interpreted. *)

Module Path.

Definition sep : ascii := "/"%char.

(** [os.path.join(a, b)] *)
Definition join (a b : string) : string :=
  if Str.startswith b "/" then b
  else if (String.eqb a "" || Str.endswith_char a sep) then a +:+ b
  else a +:+ "/" +:+ b.

Definition flush (cur : string) : list string :=
  if String.eqb cur "" then [] else [cur].

(** The non-empty components of [s]; [cur] is the component being read. *)
Fixpoint components_from (cur : string) (s : string) : list string :=
  match s with
  | "" => flush cur
  | String c s' =>
      if Ascii.eqb c sep then flush cur ++ components_from "" s'
      else components_from (cur +:+ String c "") s'
  end.

Definition components (s : string) : list string := components_from "" s.

Definition is_absolute (s : string) : bool := Str.startswith s "/".

(** The file a path string names in a process whose working directory
    is [cwd] (given by its components from the root). *)
Definition resolve (cwd : list string) (p : string) : list string :=
  if is_absolute p then components p else cwd ++ components p.

End Path.

(** ** Outcomes of running Python code *)

Inductive exn : Type :=
| AttributeError (name : string)
| NameError (name : string)
| TypeError
| ValueError
| FileNotFoundError (path : string)
| PermissionError (path : string)
| IsADirectoryError (path : string)
| ArgumentError (message : string)
| ParserError (path : string)
| PicklingError
| UnpicklingError.

(** A computation returns, raises an exception nobody catches, or ends
    the process through [sys.exit(code)]. *)
Inductive outcome (A : Type) : Type :=
| Return (a : A)
| Raise (e : exn)
| SysExit (code : Z).
Arguments Return {A} a.
Arguments Raise {A} e.
Arguments SysExit {A} code.

#[global] Instance outcome_ret : MRet outcome := fun _ a => Return a.
#[global] Instance outcome_bind : MBind outcome := fun _ _ f m =>
  match m with
  | Return a => f a
  | Raise e => Raise e
  | SysExit c => SysExit c
  end.

Definition returned {A} (m : outcome A) : bool :=
  match m with Return _ => true | _ => false end.

(** ** Python values

    The values the script handles: [None], the integers, floats and strings
    that [argparse] produces, and objects the script never looks into (a
    fitted model, a fold metric), of an arbitrary type [obj]. *)

Inductive value (obj : Type) : Type :=
| VNone
| VInt (n : Z)
| VFloat (x : float)
| VStr (s : string)
| VList (items : list (value obj))
| VObject (o : obj).
Arguments VNone {obj}.
Arguments VInt {obj} n.
Arguments VFloat {obj} x.
Arguments VStr {obj} s.
Arguments VList {obj} items.
Arguments VObject {obj} o.

(** What the embedding takes from the Python runtime and the libraries the
    script imports, without fixing it: the builtins [int()] and [float()]
    on strings ([None] stands for their [ValueError]), [str()] on floats,
    lists and opaque objects, [pickle]'s encoder and decoder on byte strings, and
    whether [pandas.read_csv] accepts the bytes of a file. *)
Class Runtime (obj : Type) : Type := {
  py_int : string -> option Z;
  py_float : string -> option float;
  float_str : float -> string;
  obj_str : obj -> string;
  list_str : list (value obj) -> string;
  pickle_dumps : value obj -> option (list byte);
  pickle_loads : list byte -> option (value obj);
  csv_parses : list byte -> bool
}.

(** [str(v)], as an f-string or [str.format] renders a value. *)
Definition py_str {obj} `{Runtime obj} (v : value obj) : string :=
  match v with
  | VNone => "None"
  | VInt n => pretty n
  | VFloat x => float_str x
  | VStr s => s
  | VList items => list_str items
  | VObject o => obj_str o
  end.

(** ** The process environment and the file system *)

(** A regular file: its content, and whether the process may read it and
    may overwrite it. *)
Record file : Type := File {
  readable : bool;
  writable : bool;
  content : list byte
}.

(** The part of the world the script can observe or change: the working
    directory, the regular files (by resolved path), the directories with
    whether the process may create entries in them, the lines written by
    [print], and the records handed to [logging.info]. *)
Record World : Type := mkWorld {
  cwd : list string;
  files : gmap (list string) file;
  dirs : gmap (list string) bool;
  printed : list string;
  logged : list string
}.

Definition set_files (fs : gmap (list string) file) (w : World) : World :=
  mkWorld (cwd w) fs (dirs w) (printed w) (logged w).

(** A computation that may read and change the world. *)
Definition IO (A : Type) : Type := World -> outcome A * World.

#[global] Instance IO_ret : MRet IO := fun _ a w => (Return a, w).
#[global] Instance IO_bind : MBind IO := fun _ _ f m w =>
  match m w with
  | (Return a, w') => f a w'
  | (Raise e, w') => (Raise e, w')
  | (SysExit c, w') => (SysExit c, w')
  end.

Definition raise {A} (e : exn) : IO A := fun w => (Raise e, w).

(** [open(path, "rb").read()] *)
Definition open_rb (path : string) : IO (list byte) := fun w =>
  match files w !! Path.resolve (cwd w) path with
  | Some f => if readable f then (Return (content f), w)
              else (Raise (PermissionError path), w)
  | None =>
      match dirs w !! Path.resolve (cwd w) path with
      | Some _ => (Raise (IsADirectoryError path), w)
      | None => (Raise (FileNotFoundError path), w)
      end
  end.

Definition parent (p : list string) : list string := removelast p.

(** [open(path, "wb")]: an existing file is truncated, a missing one is
    created when its directory exists and admits new entries.  The result is
    the resolved path, standing for the open file object. *)
Definition open_wb (path : string) : IO (list string) := fun w =>
  let p := Path.resolve (cwd w) path in
  match files w !! p with
  | Some f =>
      if writable f
      then (Return p, set_files (<[p := File (readable f) true []]> (files w)) w)
      else (Raise (PermissionError path), w)
  | None =>
      match dirs w !! p with
      | Some _ => (Raise (IsADirectoryError path), w)
      | None =>
          match dirs w !! parent p with
          | Some true => (Return p, set_files (<[p := File true true []]> (files w)) w)
          | Some false => (Raise (PermissionError path), w)
          | None => (Raise (FileNotFoundError path), w)
          end
      end
  end.

(** Writing the whole content of an open file. *)
Definition write_all (p : list string) (bs : list byte) : IO unit := fun w =>
  (Return tt, set_files (alter (fun f => File (readable f) (writable f) bs) p (files w)) w).

Definition print (line : string) : IO unit := fun w =>
  (Return tt, mkWorld (cwd w) (files w) (dirs w) (printed w ++ [line]) (logged w)).

Definition logging_info (msg : string) : IO unit := fun w =>
  (Return tt, mkWorld (cwd w) (files w) (dirs w) (printed w) (logged w ++ [msg])).

(** ** argparse

    The part of CPython's [argparse] (as of Python 3.11) that a parser built
    like the script's exercises: optional arguments that store one converted
    value, the help flag that [ArgumentParser()] adds by itself, prefix
    abbreviations of long options, [--opt=value], the [--] separator, and
    [parse_known_args], which collects what it does not recognise instead
    of rejecting it.  A usage error ([parser.error]) ends the process with
    status 2, the help flag with status 0; the text [argparse] writes on
    these occasions is not part of the model. *)

Module argparse.

Inductive arg_type : Type := type_int | type_float | type_str.

Inductive action_kind : Type :=
| Store (type : arg_type)
| Help.

Inductive default_value (obj : Type) : Type :=
| Default (v : value obj)
| SUPPRESS.
Arguments Default {obj} v.
Arguments SUPPRESS {obj}.

Record Action (obj : Type) : Type := mkAction {
  option_strings : list string;
  dest : string;
  kind : action_kind;
  default : default_value obj
}.
Arguments mkAction {obj}.
Arguments option_strings {obj}.
Arguments dest {obj}.
Arguments kind {obj}.
Arguments default {obj}.

Record Parser (obj : Type) : Type := mkParser { actions : list (Action obj) }.
Arguments mkParser {obj}.
Arguments actions {obj}.

(** What [_parse_optional] makes of an argument string that it reads as an
    option: the action it selects, if any, the option string, and the
    explicit argument after [=], if any. *)
Definition option_tuple (obj : Type) : Type :=
  option (Action obj) * string * option string.

(** The entries of [arg_strings_pattern]: [A] for an argument, [-] for the
    separator, [O] for an option. *)
Inductive pattern (obj : Type) : Type :=
| pA
| pDash
| pO (t : option_tuple obj).
Arguments pA {obj}.
Arguments pDash {obj}.
Arguments pO {obj} t.

(** The state of one run of the parser: the namespace being filled, the
    unrecognised argument strings, and the destinations of [seen_actions]. *)
Record Parsed (obj : Type) : Type := mkParsed {
  namespace : gmap string (value obj);
  extras : list string;
  seen : list string
}.
Arguments mkParsed {obj}.
Arguments namespace {obj}.
Arguments extras {obj}.
Arguments seen {obj}.

Section Parsing.
Context {obj : Type} `{RT : Runtime obj}.

Definition prefix_char (c : ascii) : bool := Ascii.eqb c "-".

(** ArgumentParser(): the parser with its help flag only. *)
Definition ArgumentParser : Parser obj :=
  mkParser [mkAction ["-h"; "--help"] "help" Help SUPPRESS].

(** The destination [add_argument] infers from a long option string. *)
Definition infer_dest (flag : string) : string :=
  Str.replace "-" "_" (Str.lstrip "-" flag).

(** parser.add_argument(flag, type=type, default=default) *)
Definition add_argument (p : Parser obj) (flag : string) (type : arg_type)
    (default : value obj) : Parser obj :=
  mkParser (actions p ++ [mkAction [flag] (infer_dest flag) (Store type) (Default default)]).

(** [_option_string_actions], in insertion order. *)
Definition option_string_actions (p : Parser obj) : list (string * Action obj) :=
  flat_map (fun a => map (fun s => (s, a)) (option_strings a)) (actions p).

Fixpoint assoc {A} (k : string) (l : list (string * A)) : option A :=
  match l with
  | [] => None
  | (k', a) :: l' => if String.eqb k k' then Some a else assoc k l'
  end.

(** The type function applied to an argument string; a [ValueError] of the
    builtin becomes an [ArgumentError]. *)
Definition get_value (a : Action obj) (arg_string : string) : outcome (value obj) :=
  match kind a with
  | Store type_int =>
      match py_int arg_string with
      | Some n => Return (VInt n)
      | None => Raise (ArgumentError "invalid int value")
      end
  | Store type_float =>
      match py_float arg_string with
      | Some x => Return (VFloat x)
      | None => Raise (ArgumentError "invalid float value")
      end
  | Store type_str | Help => Return (VStr arg_string)
  end.

(** [list.remove(x)]: drop the first occurrence, if any. *)
Fixpoint remove_first (x : string) (l : list string) : list string :=
  match l with
  | [] => []
  | y :: l' => if String.eqb y x then l' else y :: remove_first x l'
  end.

Fixpoint get_value_each (a : Action obj) (l : list string) : outcome (list (value obj)) :=
  match l with
  | [] => Return []
  | s :: l' =>
      v ← get_value a s;
      vs ← get_value_each a l';
      Return (v :: vs)
  end.

(** [_get_values] for an action that takes one argument: the first [--] is
    stripped; a single remaining string is converted, anything else becomes
    the list of the converted strings. *)
Definition get_values (a : Action obj) (arg_strings : list string) : outcome (value obj) :=
  match remove_first "--" arg_strings with
  | [arg_string] => get_value a arg_string
  | l => vs ← get_value_each a l; Return (VList vs)
  end.

(** At most one final newline removed: where [$] may match. *)
Fixpoint chomp (s : string) : string :=
  match s with
  | "" => ""
  | String c "" => if Ascii.eqb c "010" then "" else s
  | String c s' => String c (chomp s')
  end.

(** [_negative_number_matcher]: [^-\d+$|^-\d*\.\d+$], on ASCII digits. *)
Definition negative_number (s : string) : bool :=
  match s with
  | String "-" body =>
      let body := chomp body in
      Str.digits1 body ||
      match Str.split1 "." body with
      | Some (int_part, frac) => Str.all_digits int_part && Str.digits1 frac
      | None => false
      end
  | _ => false
  end.

(** [_get_option_tuples]: the options of which the string is an
    abbreviation. *)
Definition get_option_tuples (p : Parser obj) (option_string : string)
    : list (option_tuple obj) :=
  match option_string with
  | String c0 (String c1 rest) =>
      if prefix_char c0 && prefix_char c1 then
        let '(option_prefix, explicit_arg) :=
          match Str.split1 "=" option_string with
          | Some (before, after) => (before, Some after)
          | None => (option_string, None)
          end in
        flat_map (fun '(os, a) =>
                    if Str.startswith os option_prefix
                    then [(Some a, os, explicit_arg)] else [])
                 (option_string_actions p)
      else if prefix_char c0 then
        let short_option_prefix := String c0 (String c1 "") in
        let short_explicit_arg := rest in
        flat_map (fun '(os, a) =>
                    if String.eqb os short_option_prefix
                    then [(Some a, os, Some short_explicit_arg)]
                    else if Str.startswith os option_string
                    then [(Some a, os, None)] else [])
                 (option_string_actions p)
      else []
  | _ => []
  end.

(** [_parse_optional]: [Return None] when the string is an argument,
    [Return (Some t)] when it is an option, a usage error when it
    abbreviates several options. *)
Definition parse_optional (p : Parser obj) (arg_string : string)
    : outcome (option (option_tuple obj)) :=
  match arg_string with
  | "" => Return None
  | String c0 tail =>
      if negb (prefix_char c0) then Return None
      else match assoc arg_string (option_string_actions p) with
      | Some a => Return (Some (Some a, arg_string, None))
      | None =>
      if String.eqb tail "" then Return None
      else
        let split_hit :=
          match Str.split1 "=" arg_string with
          | Some (option_string, explicit_arg) =>
              match assoc option_string (option_string_actions p) with
              | Some a => Some (Some a, option_string, Some explicit_arg)
              | None => None
              end
          | None => None
          end in
        match split_hit with
        | Some t => Return (Some t)
        | None =>
            match get_option_tuples p arg_string with
            | _ :: _ :: _ => SysExit 2
            | [t] => Return (Some t)
            | [] =>
                if negative_number arg_string then Return None
                else if Str.contains " " arg_string then Return None
                else Return (Some (None, arg_string, None))
            end
        end
      end
  end.

(** The first pass of [_parse_known_args]: every argument string with its
    pattern entry.  After [--] everything is an argument. *)
Fixpoint classify (p : Parser obj) (arg_strings : list string)
    : outcome (list (string * pattern obj)) :=
  match arg_strings with
  | [] => Return []
  | arg_string :: rest =>
      if String.eqb arg_string "--"
      then Return ((arg_string, pDash) :: map (fun s => (s, pA)) rest)
      else
        o ← parse_optional p arg_string;
        toks ← classify p rest;
        Return ((arg_string, match o with Some t => pO t | None => pA end) :: toks)
  end.

(** [_match_argument]: how many of the following strings the action takes.
    For an optional argument the separator is not allowed in the pattern:
    an action with one argument matches [A] at the start of the pattern,
    the help action (no argument) matches the empty pattern. *)
Definition match_argument (a : Action obj) (ps : list (pattern obj)) : option nat :=
  match kind a with
  | Store _ =>
      match ps with
      | pA :: _ => Some 1
      | _ => None
      end
  | Help => Some 0
  end.

Definition add_extra (arg_string : string) (st : Parsed obj) : Parsed obj :=
  mkParsed (namespace st) (extras st ++ [arg_string]) (seen st).

Definition setattr (a : Action obj) (v : value obj) (st : Parsed obj) : Parsed obj :=
  mkParsed (<[dest a := v]> (namespace st)) (extras st) (seen st).

(** [take_action]: a store action converts its argument strings and sets
    its attribute; the help action prints the help and exits. *)
Definition take_action (a : Action obj) (argument_strings : list string)
    (st : Parsed obj) : outcome (Parsed obj) :=
  let st := mkParsed (namespace st) (extras st) (dest a :: seen st) in
  match kind a with
  | Store _ => v ← get_values a argument_strings; Return (setattr a v st)
  | Help => SysExit 0
  end.

(** The tail of a single-dash option string that takes no argument, read
    as further single-dash options ([-xyz] for [-x -y -z]): whether every
    one of them is an option of the parser that finds its argument. *)
Fixpoint short_chain (p : Parser obj) (ps : list (pattern obj)) (explicit_arg : string) : bool :=
  match explicit_arg with
  | "" => true
  | String c tail =>
      match assoc (String "-" (String c "")) (option_string_actions p) with
      | None => false
      | Some a =>
          match kind a with
          | Help => short_chain p ps tail
          | Store _ =>
              if String.eqb tail "" then bool_decide (is_Some (match_argument a ps))
              else true
          end
      end
  end.

Definition second_is_prefix_char (s : string) : bool :=
  match s with
  | String _ (String c _) => prefix_char c
  | _ => false
  end.

(** [consume_optional] at an option whose tuple is [t]: the number of
    following argument strings it takes, and the new state. *)
Definition consume_optional (p : Parser obj) (t : option_tuple obj)
    (arg_string : string) (rest : list (string * pattern obj)) (st : Parsed obj)
    : outcome (nat * Parsed obj) :=
  match t with
  | (None, _, _) => Return (0, add_extra arg_string st)
  | (Some a, option_string, Some explicit_arg) =>
      match match_argument a [pA] with
      | Some 1 => st' ← take_action a [explicit_arg] st; Return (0, st')
      | Some 0 =>
          if negb (second_is_prefix_char option_string)
             && negb (String.eqb explicit_arg "")
             && short_chain p (map snd rest) explicit_arg
          then st' ← take_action a [] st; Return (0, st')
          else Raise (ArgumentError "ignored explicit argument")
      | _ => Raise (ArgumentError "ignored explicit argument")
      end
  | (Some a, _, None) =>
      match match_argument a (map snd rest) with
      | Some n => st' ← take_action a (take n (map fst rest)) st; Return (n, st')
      | None => Raise (ArgumentError "expected one argument")
      end
  end.

(** The second pass: options take their arguments, every string nothing
    takes goes to the extras.  [skip] counts the strings the last option
    took, which the loop steps over. *)
Fixpoint consume (p : Parser obj) (toks : list (string * pattern obj)) (skip : nat)
    (st : Parsed obj) : outcome (Parsed obj) :=
  match toks with
  | [] => Return st
  | (arg_string, pat) :: rest =>
      match skip with
      | S k => consume p rest k st
      | O =>
          match pat with
          | pO t =>
              r ← consume_optional p t arg_string rest st;
              consume p rest r.1 r.2
          | _ => consume p rest 0 (add_extra arg_string st)
          end
      end
  end.

(** The defaults [parse_known_args] puts in the namespace before parsing. *)
Definition add_default (ns : gmap string (value obj)) (a : Action obj)
    : gmap string (value obj) :=
  match default a, ns !! dest a with
  | Default v, None => <[dest a := v]> ns
  | _, _ => ns
  end.

Definition initial_namespace (p : Parser obj) : gmap string (value obj) :=
  fold_left add_default (actions p) ∅.

(** A string default of an action that was not seen is converted by the
    action's type once parsing is over. *)
Definition convert_default (st : Parsed obj) (a : Action obj) : outcome (Parsed obj) :=
  if existsb (String.eqb (dest a)) (seen st) then Return st
  else match default a, namespace st !! dest a with
       | Default (VStr s), Some (VStr s') =>
           if String.eqb s s'
           then v ← get_value a s; Return (setattr a v st)
           else Return st
       | _, _ => Return st
       end.

Fixpoint convert_defaults (acts : list (Action obj)) (st : Parsed obj)
    : outcome (Parsed obj) :=
  match acts with
  | [] => Return st
  | a :: acts' => st' ← convert_default st a; convert_defaults acts' st'
  end.

(** What [parse_known_args] makes of the outcome of parsing: it returns
    the namespace and the extras, and turns an [ArgumentError] into a
    usage error ([parser.error], exit status 2). *)
Definition finish (m : outcome (Parsed obj))
    : outcome (gmap string (value obj) * list string) :=
  match m with
  | Return st => Return (namespace st, extras st)
  | Raise (ArgumentError _) => SysExit 2
  | Raise e => Raise e
  | SysExit c => SysExit c
  end.

(** parser.parse_known_args(args): the namespace and the extras. *)
Definition parse_known_args (p : Parser obj) (args : list string)
    : outcome (gmap string (value obj) * list string) :=
  finish (toks ← classify p args;
          st ← consume p toks 0 (mkParsed (initial_namespace p) [] []);
          convert_defaults (actions p) st).

(** The outcome of the second pass [m] amounts to the result [r] of
    [parse_known_args], whatever [seen_actions] is. *)
Inductive amounts_to : outcome (Parsed obj)
    -> outcome (gmap string (value obj) * list string) -> Prop :=
| amounts_return ns ex sn : amounts_to (Return (mkParsed ns ex sn)) (Return (ns, ex))
| amounts_usage msg : amounts_to (Raise (ArgumentError msg)) (SysExit 2)
| amounts_exit c : amounts_to (SysExit c) (SysExit c).

(** Whether a pattern entry is an option whose action sets [d]. *)
Definition targets (d : string) (pat : pattern obj) : bool :=
  match pat with
  | pO (Some a, _, _) => String.eqb (dest a) d
  | _ => false
  end.

End Parsing.
End argparse.

(** ** The script *)

Section Script.
Context {obj : Type} `{RT : Runtime obj}.

(** os.environ.get(name) *)
Definition environ_get (environ : gmap string string) (name : string) : value obj :=
  match environ !! name with
  | Some s => VStr s
  | None => VNone
  end.

Definition model_file : string := "xgboost-model".

(** pickle.load on the bytes of a file. *)
Definition pickle_load (bs : list byte) : IO (value obj) :=
  match pickle_loads bs with
  | Some v => mret v
  | None => raise UnpicklingError
  end.

(** model_fn(model_dir) *)
Definition model_fn (model_dir : string) : IO (value obj) :=
  bs ← open_rb (Path.join model_dir model_file);
  pickle_load bs.

(** The parser [parse_args] builds. *)
Definition parser (environ : gmap string string) : argparse.Parser obj :=
  let parser := argparse.ArgumentParser in
  let parser := argparse.add_argument parser "--max_depth" argparse.type_int (VInt 5) in
  let parser := argparse.add_argument parser "--eta" argparse.type_float (VFloat 0.2) in
  let parser := argparse.add_argument parser "--objective" argparse.type_str
                  (VStr "reg:squarederror") in
  let parser := argparse.add_argument parser "--train" argparse.type_str
                  (environ_get environ "SM_CHANNEL_TRAIN") in
  let parser := argparse.add_argument parser "--model_dir" argparse.type_str
                  (environ_get environ "SM_MODEL_DIR") in
  parser.

(** parse_args(), reading [os.environ] and [sys.argv[1:]]. *)
Definition parse_args (environ : gmap string string) (argv : list string)
    : outcome (gmap string (value obj) * list string) :=
  argparse.parse_known_args (parser environ) argv.

(** Whether the parser reads [arg_string] as an option that sets the
    attribute [d] (the option string, an abbreviation of it, or either with
    [=value] attached). *)
Definition selects (environ : gmap string string) (d : string) (arg_string : string) : bool :=
  match argparse.parse_optional (parser environ) arg_string with
  | Return (Some t) => argparse.targets d (argparse.pO t)
  | _ => false
  end.

(** No argument string of [argv] selects the attribute [d]. *)
Definition absent (environ : gmap string string) (d : string) (argv : list string) : Prop :=
  Forall (fun s => selects environ d s = false) argv.

(** The module globals [train] reads: [args], set by the main block, and
    [k_fold_avg] and [model], which nothing in the script assigns. *)
Record Globals : Type := mkGlobals {
  g_args : option (gmap string (value obj));
  g_k_fold_avg : option (value obj);
  g_model : option (value obj)
}.

Definition load_global {A} (name : string) (binding : option A) : IO A :=
  match binding with
  | Some v => mret v
  | None => raise (NameError name)
  end.

Definition getattr (ns : gmap string (value obj)) (name : string) : IO (value obj) :=
  match ns !! name with
  | Some v => mret v
  | None => raise (AttributeError name)
  end.

(** [v + s] for a string literal [s]: concatenation on a string, a
    [TypeError] on the other values. *)
Definition add_str (v : value obj) (s : string) : IO string :=
  match v with
  | VStr s' => mret (s' +:+ s)
  | _ => raise TypeError
  end.

(** The path of the training file, as the f-string builds it. *)
Definition train_csv (train_attr : value obj) : string :=
  py_str train_attr +:+ "/train.csv".

(** pd.read_csv(path, header=None, index_col=None); the table itself is
    not used by the rest of [train]. *)
Definition read_csv (path : string) : IO unit :=
  bs ← open_rb path;
  if csv_parses bs then mret tt else raise (ParserError path).

(** pickle.dump(v, f) on a file just opened for writing; when the value
    cannot be pickled the file stays as [open] left it, empty. *)
Definition pickle_dump (v : value obj) (f : list string) : IO unit :=
  match pickle_dumps v with
  | Some bs => write_all f bs
  | None => raise PicklingError
  end.

(** train(), statement by statement: [K = args.K]; the empty
    [hyperparameters] dictionary has no effect; [pd.read_csv] of the
    training file; [print] of the fold metric; the model location;
    [pickle.dump(model, open(model_location, "wb"))], which looks [model] up
    before it opens the file; [logging.info]. *)
Definition train (g : Globals) : IO unit :=
  args ← load_global "args" (g_args g);
  K ← getattr args "K";
  train_attr ← getattr args "train";
  _ ← read_csv (train_csv train_attr);
  k_fold_avg ← load_global "k_fold_avg" (g_k_fold_avg g);
  _ ← print ("RMSE average across folds: " +:+ py_str k_fold_avg);
  model_dir ← getattr args "model_dir";
  model_location ← add_str model_dir "/xgboost-model";
  model ← load_global "model" (g_model g);
  f ← open_wb model_location;
  _ ← pickle_dump model f;
  logging_info ("Stored trained model at " +:+ model_location).

(** The main block: [args, _ = parse_args()] then [train()]. *)
Definition main (environ : gmap string string) (argv : list string) : IO unit :=
  fun w =>
    match parse_args environ argv with
    | Return (args, _) => train (mkGlobals (Some args) None None) w
    | Raise e => (Raise e, w)
    | SysExit c => (SysExit c, w)
    end.

End Script.

(** ** A runtime for concrete runs

    An instance of [Runtime] on which the examples below are evaluated.
    Fitted models are numbered.  [int()] and [float()] are given on signed
    decimal numerals without exponent, whitespace or underscores, where the
    float is the quotient of two exactly represented numbers and hence the
    correctly rounded one; other strings are rejected.  A pickle is a tag
    byte followed by the text of the value.  The renderings of floats,
    lists and models are placeholders. *)

Module TestRuntime.

Fixpoint digits_value (acc : Z) (s : string) : Z :=
  match s with
  | "" => acc
  | String c s' => digits_value (10 * acc + (Z.of_nat (nat_of_ascii c) - 48)) s'
  end.

Definition unsigned (s : string) : option Z :=
  if Str.digits1 s then Some (digits_value 0 s) else None.

Definition signed {A} (parse : string -> option A) (neg : A -> A) (s : string) : option A :=
  match s with
  | String "-" s' => neg <$> parse s'
  | String "+" s' => parse s'
  | _ => parse s
  end.

Definition int_of_string : string -> option Z := signed unsigned Z.opp.

Fixpoint float_of_pos (p : positive) : float :=
  match p with
  | xH => 1
  | xO q => 2 * float_of_pos q
  | xI q => 2 * float_of_pos q + 1
  end%float.

Definition float_of_Z (n : Z) : float :=
  match n with
  | Z0 => 0
  | Zpos p => float_of_pos p
  | Zneg p => - float_of_pos p
  end%float.

Definition unsigned_float (s : string) : option float :=
  match Str.split1 "." s with
  | None => float_of_Z <$> unsigned s
  | Some (int_part, frac) =>
      let k := String.length frac in
      if Str.all_digits int_part && Str.digits1 frac && (k <=? 22)%nat
         && (digits_value 0 (int_part +:+ frac) <? 2 ^ 53)%Z
      then Some (float_of_Z (digits_value 0 (int_part +:+ frac)) / float_of_Z (10 ^ Z.of_nat k))%float
      else None
  end.

Definition float_of_string : string -> option float :=
  signed unsigned_float PrimFloat.opp.

Definition dumps (v : value nat) : option (list byte) :=
  match v with
  | VNone => Some [x4e]
  | VStr s => Some (x53 :: String.list_byte_of_string s)
  | VObject n => Some (x4f :: String.list_byte_of_string (pretty n))
  | _ => None
  end.

Definition loads (bs : list byte) : option (value nat) :=
  match bs with
  | [x4e] => Some VNone
  | x53 :: bs' => Some (VStr (String.string_of_list_byte bs'))
  | x4f :: bs' => (fun n => VObject (Z.to_nat n)) <$> unsigned (String.string_of_list_byte bs')
  | _ => None
  end.

#[export] Instance runtime : Runtime nat := {|
  py_int := int_of_string;
  py_float := float_of_string;
  float_str := fun _ => "<float>";
  obj_str := fun n => "<model " +:+ pretty n +:+ ">";
  list_str := fun _ => "<list>";
  pickle_dumps := dumps;
  pickle_loads := loads;
  csv_parses := fun bs => negb (bool_decide (bs = []))
|}.

End TestRuntime.

(** ** Vocabulary of the statements *)


(** A file already in place at [path], if any, can be read. *)
Definition readable_if_present (w : World) (path : string) : Prop :=
  forall f, files w !! Path.resolve (cwd w) path = Some f -> readable f = true.

(** ** Command lines, as the specification reads them

    The options of the script, and a command line as a sequence of items:
    a known option with its value, written [--opt value] or [--opt=value];
    the help flag; or any other argument string. *)

Inductive flag : Type := F_max_depth | F_eta | F_objective | F_train | F_model_dir.

Definition flag_option (f : flag) : string :=
  match f with
  | F_max_depth => "--max_depth"
  | F_eta => "--eta"
  | F_objective => "--objective"
  | F_train => "--train"
  | F_model_dir => "--model_dir"
  end.

(** The attribute of the namespace that holds the resolved value. *)
Definition flag_dest (f : flag) : string :=
  match f with
  | F_max_depth => "max_depth"
  | F_eta => "eta"
  | F_objective => "objective"
  | F_train => "train"
  | F_model_dir => "model_dir"
  end.

#[global] Instance flag_eq_dec : EqDecision flag.
Proof. solve_decision. Defined.

Inductive item : Type :=
| Given (f : flag) (v : string) (joined : bool)
| HelpFlag (long : bool)
| Other (arg_string : string).

Definition render_item (it : item) : list string :=
  match it with
  | Given f v false => [flag_option f; v]
  | Given f v true => [flag_option f +:+ "=" +:+ v]
  | HelpFlag false => ["-h"]
  | HelpFlag true => ["--help"]
  | Other s => [s]
  end.

(** The argument strings of a command line. *)
Definition render (inv : list item) : list string := flat_map render_item inv.



Definition other_strings (inv : list item) : list string :=
  flat_map (fun it => match it with Other s => [s] | _ => [] end) inv.

Definition option_strings_of_script : list string :=
  ["-h"; "--help"; "--max_depth"; "--eta"; "--objective"; "--train"; "--model_dir"].

(** The text of an argument string before its first [=]. *)
Definition before_eq (s : string) : string :=
  match Str.split1 "=" s with
  | Some (before, _) => before
  | None => s
  end.

(** A value that can follow an option as a separate argument string: it
    does not begin with a dash, or it is a negative number. *)
Definition argument_like (v : string) : bool :=
  negb (Str.startswith v "-") || argparse.negative_number v.

(** An argument string that is no option of the script: it is not the
    separator, and when it begins with two dashes its text before [=] is
    not the beginning of an option string, when it begins with one dash
    that dash is not followed by [h]. *)
Definition unrecognized (s : string) : bool :=
  negb (String.eqb s "--") &&
  match s with
  | String "-" (String c _) =>
      if Ascii.eqb c "-"
      then forallb (fun o => negb (Str.startswith o (before_eq s))) option_strings_of_script
      else negb (Ascii.eqb c "h")
  | _ => true
  end.

(** The shape each item of a command line must have for the items to be
    read as such: a joined value is not the separator itself. *)
Definition item_shape (it : item) : Prop :=
  match it with
  | Given _ v false => argument_like v = true
  | Given _ v true => v <> "--"
  | HelpFlag _ => True
  | Other s => unrecognized s = true
  end.

Section Meaning.
Context {obj : Type} `{RT : Runtime obj}.

Definition flag_type (f : flag) : argparse.arg_type :=
  match f with
  | F_max_depth => argparse.type_int
  | F_eta => argparse.type_float
  | F_objective | F_train | F_model_dir => argparse.type_str
  end.

(** The default [parse_args] hands to [add_argument]. *)
Definition flag_default (environ : gmap string string) (f : flag) : value obj :=
  match f with
  | F_max_depth => VInt 5
  | F_eta => VFloat 0.2
  | F_objective => VStr "reg:squarederror"
  | F_train => environ_get environ "SM_CHANNEL_TRAIN"
  | F_model_dir => environ_get environ "SM_MODEL_DIR"
  end.

(** The actions of the script's parser. *)
Definition flag_action (environ : gmap string string) (f : flag) : argparse.Action obj :=
  argparse.mkAction [flag_option f] (flag_dest f) (argparse.Store (flag_type f))
    (argparse.Default (flag_default environ f)).

Definition help_action : argparse.Action obj :=
  argparse.mkAction ["-h"; "--help"] "help" argparse.Help argparse.SUPPRESS.

(** The pattern entry of an argument string that is no option of the
    script: an argument when it is empty, does not begin with a dash, is a
    lone dash, a negative number or contains a space; otherwise an option
    without action. *)
Definition other_pattern (s : string) : argparse.pattern obj :=
  match s with
  | "" => argparse.pA
  | String c0 tail =>
      if negb (argparse.prefix_char c0) then argparse.pA
      else if String.eqb tail "" then argparse.pA
      else if argparse.negative_number s then argparse.pA
      else if Str.contains " " s then argparse.pA
      else argparse.pO (None, s, None)
  end.

(** The argument strings of an item with their pattern entries. *)
Definition item_tokens (environ : gmap string string) (it : item)
    : list (string * argparse.pattern obj) :=
  match it with
  | Given f v false =>
      [(flag_option f, argparse.pO (Some (flag_action environ f), flag_option f, None));
       (v, argparse.pA)]
  | Given f v true =>
      [(flag_option f +:+ "=" +:+ v,
        argparse.pO (Some (flag_action environ f), flag_option f, Some v))]
  | HelpFlag false => [("-h", argparse.pO (Some help_action, "-h", None))]
  | HelpFlag true => [("--help", argparse.pO (Some help_action, "--help", None))]
  | Other s => [(s, other_pattern s)]
  end.

(** The type coercion of each option. *)
Definition coerce (f : flag) (v : string) : option (value obj) :=
  match f with
  | F_max_depth => VInt <$> py_int v
  | F_eta => VFloat <$> py_float v
  | F_objective | F_train | F_model_dir => Some (VStr v)
  end.



(** The namespace of the defaults. *)
Definition defaults (environ : gmap string string) : gmap string (value obj) :=
  <["model_dir" := environ_get environ "SM_MODEL_DIR"]>
    (<["train" := environ_get environ "SM_CHANNEL_TRAIN"]>
       (<["objective" := VStr "reg:squarederror"]>
          (<["eta" := VFloat 0.2]>
             (<["max_depth" := VInt 5]> ∅)))).

(** Reading a command line item by item: a known option sets its
    attribute when its value coerces and is a usage error otherwise, the
    help flag ends the process, any other string is set aside. *)
Fixpoint read_items (inv : list item) (ns : gmap string (value obj)) (extras : list string)
    : outcome (gmap string (value obj) * list string) :=
  match inv with
  | [] => Return (ns, extras)
  | Given f v _ :: inv' =>
      match coerce f v with
      | Some x => read_items inv' (<[flag_dest f := x]> ns) extras
      | None => SysExit 2
      end
  | HelpFlag _ :: _ => SysExit 0
  | Other s :: inv' => read_items inv' ns (extras ++ [s])
  end.

(** Every value given for a known option coerces. *)
Definition coercible (inv : list item) : Prop :=
  Forall (fun it => match it with
                    | Given f v _ => is_Some (coerce f v)
                    | _ => True
                    end) inv.

(** No item is the help flag. *)
Definition no_help (inv : list item) : Prop :=
  Forall (fun it => match it with HelpFlag _ => False | _ => True end) inv.


End Meaning.

(** ** A sample installation

    A training container as SageMaker lays it out, for the concrete runs:
    the script runs from [/opt/ml/code], the training channel holds
    [train.csv], the model directory [/opt/ml/model] is empty. *)

Module Sample.

Definition environ : gmap string string :=
  <["SM_CHANNEL_TRAIN" := "/opt/ml/input/data/train"]>
    (<["SM_MODEL_DIR" := "/opt/ml/model"]> ∅).

Definition world : World := {|
  cwd := ["opt"; "ml"; "code"];
  files := {[ ["opt"; "ml"; "input"; "data"; "train"; "train.csv"]
              := File true true [x31; x2c; x32; x0a] ]};
  dirs := {[ ["opt"; "ml"; "model"] := true ]};
  printed := [];
  logged := []
|}.

(** The namespace a completed script would resolve: the attributes of
    [parse_args] together with the [K] its TODO asks for. *)
Definition completed_args : gmap string (value nat) :=
  <["K" := VInt 5]>
    (<["max_depth" := VInt 5]>
       (<["train" := VStr "/opt/ml/input/data/train"]>
          (<["model_dir" := VStr "/opt/ml/model"]> ∅))).

(** Globals of a completed script: a fold metric and model number 7. *)
Definition completed : Globals :=
  mkGlobals (Some completed_args) (Some (VInt 1)) (Some (VObject 7%nat)).


(** The world after [train] has run with [completed]. *)
Definition world_after : World := {|
  cwd := cwd world;
  files := <[ ["opt"; "ml"; "model"; "xgboost-model"] := File true true [x4f; x37] ]>
             (files world);
  dirs := dirs world;
  printed := ["RMSE average across folds: 1"];
  logged := ["Stored trained model at /opt/ml/model/xgboost-model"]
|}.




(** Command lines. *)
Definition invocation : list item :=
  [Given F_max_depth "7" false; Given F_eta "0.5" true; Given F_train "/data" false].



End Sample.

(** ** Further vocabulary and samples *)

(** An item with its spelling forgotten: [--opt=value] read as
    [--opt value]. *)
Definition unspell (it : item) : item :=
  match it with
  | Given f v _ => Given f v false
  | _ => it
  end.

(** The non-empty beginnings of a string. *)
Fixpoint prefixes (s : string) : list string :=
  match s with
  | "" => []
  | String c s' => String c "" :: map (String c) (prefixes s')
  end.

(** [s] abbreviates the option [f]: it goes beyond the two dashes, it is a
    beginning of the option string of [f] and of no other option string of
    the script. *)
Definition abbreviates (s : string) (f : flag) : bool :=
  (3 <=? String.length s)%nat
  && Str.startswith (flag_option f) s
  && forallb (fun o => String.eqb o (flag_option f) || negb (Str.startswith o s))
             option_strings_of_script.

(** The ways a run of the parser can end: it returns, it reports a usage
    error (as an [ArgumentError] still to be caught, or as exit status 2),
    or the help flag ends the process with status 0. *)
Definition parser_outcome {A} (m : outcome A) : Prop :=
  match m with
  | Return _ => True
  | Raise (ArgumentError _) => True
  | Raise _ => False
  | SysExit c => c = 0%Z \/ c = 2%Z
  end.

(** The attributes of the namespace [parse_args] returns. *)
Definition attributes : gset string :=
  {[ "max_depth"; "eta"; "objective"; "train"; "model_dir" ]}.

Module MoreSamples.

(** Globals of a script completed but run with no model directory. *)
Definition completed_no_model_dir : Globals :=
  mkGlobals (Some (<["model_dir" := VNone]> Sample.completed_args))
            (Some (VInt 1)) (Some (VObject 7%nat)).

Definition world_after_print : World :=
  mkWorld (cwd Sample.world) (files Sample.world) (dirs Sample.world)
          ["RMSE average across folds: 1"] [].

Definition invocation_with_help : list item :=
  [Given F_max_depth "7" false; HelpFlag true; Given F_eta "fast" false].

Definition invocation_joined : list item :=
  [Given F_max_depth "7" true; Given F_eta "0.5" true; Given F_train "/data" true].

End MoreSamples.

(** * Properties *)

(** ** Paths *)

Lemma append_cons (x : ascii) (a b : string) : String x a +:+ b = String x (a +:+ b).
Proof. done. Qed.

Lemma append_assoc (a b c : string) : (a +:+ b) +:+ c = a +:+ (b +:+ c).
Proof. induction a as [|x a IH]; [done | by rewrite !append_cons, IH]. Qed.

Lemma components_from_sep (cur a b : string) :
  Path.components_from cur (a +:+ String "/" b)
  = (Path.components_from cur a ++ Path.components b)%list.
Proof.
  revert cur. induction a as [|c a IH]; intros cur.
  - done.
  - rewrite append_cons. simpl. unfold Path.sep. destruct (Ascii.eqb c "/"); [| apply IH].
    rewrite IH. by rewrite app_assoc.
Qed.

Lemma endswith_char_inv (d : string) (c : ascii) :
  Str.endswith_char d c = true -> exists d', d = d' +:+ String c "".
Proof.
  unfold Str.endswith_char. induction d as [|x d IH]; simpl; [done |].
  destruct d as [|y d].
  - intros ->%Ascii.eqb_eq. by exists "".
  - intros H. destruct (IH H) as [d' ->]. by exists (String x d').
Qed.

Lemma is_absolute_append (d s : string) :
  d <> "" -> Path.is_absolute (d +:+ s) = Path.is_absolute d.
Proof. intros Hd. destruct d; [done | reflexivity]. Qed.

(** The loader's path names the entry [xgboost-model] of the directory
    that [model_dir] names, whatever the form of [model_dir]. *)
Lemma resolve_join_model_file (cwd : list string) (d : string) :
  Path.resolve cwd (Path.join d model_file) = (Path.resolve cwd d ++ [model_file])%list.
Proof.
  unfold Path.join, Path.sep. change (Str.startswith model_file "/") with false. cbv iota.
  destruct d as [|c d].
  { change (Path.resolve cwd "") with (cwd ++ [])%list. by rewrite app_nil_r. }
  change (String.eqb (String c d) "") with false. rewrite orb_false_l.
  set (s := String c d). assert (Hs : s <> "") by done. clearbody s.
  unfold Path.resolve.
  destruct (Str.endswith_char s "/") eqn:E.
  - rewrite is_absolute_append by done.
    apply endswith_char_inv in E as [d' ->].
    rewrite append_assoc. change ("/" +:+ model_file) with (String "/" model_file).
    unfold Path.components. rewrite components_from_sep.
    rewrite (components_from_sep "" d' "").
    rewrite app_nil_r. destruct (Path.is_absolute _); [done | by rewrite app_assoc].
  - change ("/" +:+ model_file) with (String "/" model_file).
    rewrite is_absolute_append by done.
    unfold Path.components. rewrite components_from_sep.
    destruct (Path.is_absolute s); [done | by rewrite app_assoc].
Qed.

(** The driver's path names the same entry, unless [model_dir] is empty. *)
Lemma resolve_model_location (cwd : list string) (d : string) :
  d <> "" ->
  Path.resolve cwd (d +:+ "/xgboost-model") = (Path.resolve cwd d ++ [model_file])%list.
Proof.
  intros Hd. unfold Path.resolve.
  change "/xgboost-model" with (String "/" model_file).
  rewrite is_absolute_append by done.
  unfold Path.components. rewrite components_from_sep.
  destruct (Path.is_absolute d); [done | by rewrite app_assoc].
Qed.

(** ** The model artifact *)

Section Artifact.
Context {obj : Type} `{RT : Runtime obj}.



End Artifact.



(** With a trailing separator the two path strings differ, though they
    name the same file. *)
Example model_artifact_path_trailing_sep :
  Path.join "/opt/ml/model/" model_file = "/opt/ml/model/xgboost-model"
  /\ "/opt/ml/model/" +:+ "/xgboost-model" = "/opt/ml/model//xgboost-model".
Proof. done. Qed.


(** ** The driver *)

Section Driver.
Context {obj : Type} `{RT : Runtime obj}.

Ltac unfold_io :=
  unfold load_global, getattr, read_csv, add_str, pickle_dump, open_rb, open_wb,
    write_all, print, logging_info, set_files, raise, mbind, IO_bind, mret, IO_ret in *.


(** What a run of [train] that returns has done. *)
Lemma train_returns_inv (g : Globals) (w w' : World) :
  train g w = (Return tt, w') ->
  exists args d m k bs r,
    g_args g = Some args /\ args !! "model_dir" = Some (VStr d)
    /\ g_model g = Some m /\ g_k_fold_avg g = Some k
    /\ pickle_dumps m = Some bs
    /\ (forall f, files w !! Path.resolve (cwd w) (d +:+ "/xgboost-model") = Some f ->
                  r = readable f)
    /\ (files w !! Path.resolve (cwd w) (d +:+ "/xgboost-model") = None -> r = true)
    /\ w' = mkWorld (cwd w)
              (<[Path.resolve (cwd w) (d +:+ "/xgboost-model") := File r true bs]> (files w))
              (dirs w)
              (printed w ++ ["RMSE average across folds: " +:+ py_str k])
              (logged w ++ ["Stored trained model at " +:+ d +:+ "/xgboost-model"]).
Proof.
  intros H. unfold train, train_csv in H. unfold_io.
  destruct (g_args g) as [args|] eqn:Eargs; simpl in H; [| done].
  destruct (args !! "K") as [K|]; simpl in H; [| done].
  destruct (args !! "train") as [v|]; simpl in H; [| done].
  destruct (files w !! Path.resolve (cwd w) (py_str v +:+ "/train.csv")) as [csv|];
    simpl in H; [| by destruct (dirs w !! _)].
  destruct (readable csv); simpl in H; [| done].
  destruct (csv_parses (content csv)); simpl in H; [| done].
  destruct (g_k_fold_avg g) as [k|] eqn:Ek; simpl in H; [| done].
  destruct (args !! "model_dir") as [[| | |d| |]|] eqn:Ed; simpl in H; try done.
  destruct (g_model g) as [m|] eqn:Em; simpl in H; [| done].
  set (p := Path.resolve (cwd w) (d +:+ "/xgboost-model")) in *.
  assert (Hw : forall r bs,
    alter (fun f => File (readable f) (writable f) bs) p (<[p := File r true []]> (files w))
    = <[p := File r true bs]> (files w)) by (intros; by rewrite alter_insert_eq).
  destruct (files w !! p) as [old|] eqn:Eold.
  - destruct (writable old); [| done]. simpl in H.
    destruct (pickle_dumps m) as [bs|] eqn:Ebs; [| done]. simpl in H.
    injection H as <-. rewrite Hw.
    exists args, d, m, k, bs, (readable old).
    subst p. split_and!; try done; intros; congruence.
  - destruct (dirs w !! p); [done |].
    destruct (dirs w !! parent p) as [[|]|]; try done. simpl in H.
    destruct (pickle_dumps m) as [bs|] eqn:Ebs; [| done]. simpl in H.
    injection H as <-. rewrite Hw.
    exists args, d, m, k, bs, true. subst p. split_and!; try done; intros; congruence.
Qed.



End Driver.





(** ** The parser: what a run can change *)

Section ParserFrame.
Context {obj : Type} `{RT : Runtime obj}.
Import argparse.

Lemma assoc_elem {A} (k : string) (l : list (string * A)) (a : A) :
  assoc k l = Some a -> (k, a) ∈ l.
Proof.
  induction l as [|[k' a'] l IH]; simpl; [done |].
  destruct (String.eqb_spec k k') as [->|_].
  - intros [= ->]. apply list_elem_of_here.
  - intros H. apply list_elem_of_further. auto.
Qed.

Lemma option_string_actions_elem (p : Parser obj) (s : string) (a : Action obj) :
  (s, a) ∈ option_string_actions p -> a ∈ actions p.
Proof.
  unfold option_string_actions. intros Hin.
  apply list_elem_of_In, in_flat_map in Hin as (a' & Ha' & Hin).
  apply in_map_iff in Hin as (s' & [= _ ->] & _).
  by apply list_elem_of_In.
Qed.

Lemma get_option_tuples_elem (p : Parser obj) (s os : string) (a : Action obj) e :
  (Some a, os, e) ∈ get_option_tuples p s -> a ∈ actions p.
Proof.
  unfold get_option_tuples.
  destruct s as [|c0 [|c1 rest]]; try by intros ?%elem_of_nil.
  assert (Hflat : forall (f : string * Action obj -> list (option_tuple obj)),
    (forall os' a' t, t ∈ f (os', a') -> t = (Some a, os, e) -> a' = a) ->
    (Some a, os, e) ∈ flat_map f (option_string_actions p) -> a ∈ actions p).
  { intros f Hf Hin. apply list_elem_of_In, in_flat_map in Hin as ([os' a'] & Hin & Ht).
    apply list_elem_of_In in Hin, Ht.
    rewrite <- (Hf _ _ _ Ht eq_refl). by eapply option_string_actions_elem. }
  destruct (prefix_char c0 && prefix_char c1).
  - destruct (Str.split1 _ _) as [[before after]|]; apply Hflat;
      intros os' a' t Ht Et; destruct (Str.startswith _ _);
      solve [ by apply elem_of_nil in Ht
            | apply list_elem_of_singleton in Ht; congruence ].
  - destruct (prefix_char c0); [| by intros ?%elem_of_nil].
    apply Hflat. intros os' a' t Ht Et.
    destruct (String.eqb _ _); [apply list_elem_of_singleton in Ht; congruence |].
    destruct (Str.startswith _ _);
      solve [ by apply elem_of_nil in Ht
            | apply list_elem_of_singleton in Ht; congruence ].
Qed.

(** An option tuple names an action of the parser. *)
Lemma parse_optional_action (p : Parser obj) (s os : string) (a : Action obj) e :
  parse_optional p s = Return (Some (Some a, os, e)) -> a ∈ actions p.
Proof.
  unfold parse_optional. destruct s as [|c0 tail]; [done |].
  destruct (negb (prefix_char c0)); [done |].
  destruct (assoc _ _) as [a0|] eqn:E0.
  { intros [= -> _ _]. eapply option_string_actions_elem, assoc_elem, E0. }
  destruct (String.eqb tail ""); [done |].
  destruct (Str.split1 _ _) as [[option_string explicit_arg]|].
  - destruct (assoc option_string _) as [a1|] eqn:E1.
    { intros [= -> _ _]. eapply option_string_actions_elem, assoc_elem, E1. }
    destruct (get_option_tuples p _) as [|t [|t' l]] eqn:Et; [| | done].
    + by repeat case_match.
    + intros [= ->]. eapply get_option_tuples_elem. rewrite Et. apply list_elem_of_here.
  - destruct (get_option_tuples p _) as [|t [|t' l]] eqn:Et; [| | done].
    + by repeat case_match.
    + intros [= ->]. eapply get_option_tuples_elem. rewrite Et. apply list_elem_of_here.
Qed.

(** The pattern entries come from [parse_optional] on the argument strings. *)
Lemma classify_entries (p : Parser obj) (args : list string) toks :
  classify p args = Return toks ->
  Forall (fun tok => forall t, tok.2 = pO t ->
                     tok.1 ∈ args /\ parse_optional p tok.1 = Return (Some t)) toks.
Proof.
  revert toks. induction args as [|s args IH]; intros toks; simpl.
  - intros [= <-]. constructor.
  - destruct (String.eqb s "--").
    + intros [= <-]. constructor; [done |].
      apply Forall_forall. intros tok Hin t Ht.
      apply list_elem_of_In, in_map_iff in Hin as (s' & <- & _). done.
    + destruct (parse_optional p s) as [o| |] eqn:Eo; try done. simpl.
      destruct (classify p args) as [toks'| |]; try done. simpl.
      intros [= <-]. constructor.
      * intros t Ht. simpl in *. split; [apply list_elem_of_here |].
        destruct o; by simplify_eq.
      * eapply Forall_impl; [by apply IH |].
        intros tok H t Ht. destruct (H t Ht). split; [by apply list_elem_of_further | done].
Qed.

Lemma take_action_frame (a : Action obj) l (st st' : Parsed obj) (d : string) :
  take_action a l st = Return st' -> dest a <> d ->
  namespace st' !! d = namespace st !! d.
Proof.
  unfold take_action. destruct (kind a); [| done].
  destruct (get_values a l); simpl; try done.
  intros [= <-] Hd. simpl. by rewrite lookup_insert_ne.
Qed.

Lemma consume_optional_frame (p : Parser obj) t s rest (st : Parsed obj) r (d : string) :
  consume_optional p t s rest st = Return r -> targets d (pO t) = false ->
  namespace r.2 !! d = namespace st !! d.
Proof.
  unfold consume_optional. destruct t as [[[a|] os] e]; simpl.
  - intros H Hd%String.eqb_neq. revert H. destruct e as [e|].
    + destruct (match_argument a [pA]) as [[|[|n]]|]; try done.
      * destruct (_ && _); [| done].
        destruct (take_action a [] st) as [st'| |] eqn:E; try done.
        intros [= <-]. simpl. by eapply take_action_frame.
      * destruct (take_action a [e] st) as [st'| |] eqn:E; try done.
        intros [= <-]. simpl. by eapply take_action_frame.
    + destruct (match_argument a _) as [n|]; [| done].
      destruct (take_action a _ st) as [st'| |] eqn:E; try done.
      intros [= <-]. simpl. by eapply take_action_frame.
  - by intros [= <-] _.
Qed.

(** The second pass leaves alone every attribute that no option on the
    command line targets. *)
Lemma consume_frame (p : Parser obj) toks skip (st st' : Parsed obj) (d : string) :
  consume p toks skip st = Return st' ->
  Forall (fun tok => targets d tok.2 = false) toks ->
  namespace st' !! d = namespace st !! d.
Proof.
  revert skip st. induction toks as [|[s pat] toks IH]; intros skip st; simpl.
  - by intros [= <-].
  - intros H Hall. apply Forall_cons in Hall as [Hd Hall]. simpl in Hd.
    destruct skip as [|k]; [| by eapply IH].
    destruct pat as [| |t]; try by rewrite (IH _ _ H Hall).
    destruct (consume_optional p t s toks st) as [r| |] eqn:E; try done. simpl in H.
    rewrite (IH _ _ H Hall). by eapply consume_optional_frame.
Qed.

Lemma convert_default_frame (st st' : Parsed obj) (a : Action obj) (d : string) :
  convert_default st a = Return st' ->
  dest a <> d \/ (forall s, default a <> Default (VStr s)) ->
  namespace st' !! d = namespace st !! d.
Proof.
  unfold convert_default. destruct (existsb _ _); [by intros [= <-] |].
  destruct (default a) as [[| | |s| |]|]; try by intros [= <-].
  destruct (namespace st !! dest a) as [[| | |s'| |]|]; try by intros [= <-].
  destruct (String.eqb s s'); [| by intros [= <-]].
  destruct (get_value a s); simpl; try done.
  intros [= <-] [Hd|Hs]; simpl; [by rewrite lookup_insert_ne | by destruct (Hs s)].
Qed.

Lemma convert_defaults_frame (acts : list (Action obj)) (st st' : Parsed obj) (d : string) :
  convert_defaults acts st = Return st' ->
  Forall (fun a => dest a <> d \/ (forall s, default a <> Default (VStr s))) acts ->
  namespace st' !! d = namespace st !! d.
Proof.
  revert st. induction acts as [|a acts IH]; intros st; simpl.
  - by intros [= <-].
  - intros H Hall. apply Forall_cons in Hall as [Ha Hall].
    destruct (convert_default st a) as [st1| |] eqn:E; try done. simpl in H.
    rewrite (IH _ H Hall). by eapply convert_default_frame.
Qed.

(** A run of [parse_known_args] that returns went through both passes and
    the conversion of the defaults. *)
Lemma parse_known_args_inv (p : Parser obj) (args : list string) ns ex :
  parse_known_args p args = Return (ns, ex) ->
  exists toks st st',
    classify p args = Return toks
    /\ consume p toks 0 (mkParsed (initial_namespace p) [] []) = Return st
    /\ convert_defaults (actions p) st = Return st'
    /\ ns = namespace st' /\ ex = extras st'.
Proof.
  unfold parse_known_args, finish. intros H.
  destruct (classify p args) as [toks|e|c] eqn:Ec; simpl in H;
    [| by destruct e | done].
  destruct (consume p toks 0 _) as [st|e|c] eqn:Es; simpl in H;
    [| by destruct e | done].
  destruct (convert_defaults (actions p) st) as [st'|e|c] eqn:Ed; simpl in H;
    [| by destruct e | done].
  injection H as <- <-. by exists toks, st, st'.
Qed.

(** An attribute that no argument string targets, and whose default the
    parser does not convert, keeps the default it had before parsing. *)
Lemma parse_known_args_frame (p : Parser obj) (args : list string) ns ex (d : string) :
  parse_known_args p args = Return (ns, ex) ->
  Forall (fun s => forall t, parse_optional p s = Return (Some t) ->
                   targets d (pO t) = false) args ->
  Forall (fun a => dest a <> d \/ (forall s, default a <> Default (VStr s))) (actions p) ->
  ns !! d = initial_namespace p !! d.
Proof.
  intros (toks & st & st' & Ec & Es & Ed & -> & _)%parse_known_args_inv Hargs Hacts.
  rewrite (convert_defaults_frame _ _ _ d Ed Hacts).
  apply (consume_frame _ _ _ _ _ d Es).
  eapply Forall_impl; [by apply classify_entries |].
  intros [s pat] Htok. simpl in *. destruct pat as [| |t]; try done.
  destruct (Htok t eq_refl) as [Hin Hp].
  rewrite Forall_forall in Hargs. by apply (Hargs s).
Qed.

End ParserFrame.

(** ** The resolver: attributes, defaults and the missing [K] *)

Section Resolver.
Context {obj : Type} `{RT : Runtime obj}.
Import argparse.

(** The destinations of the script's parser. *)
Lemma parser_dests (environ : gmap string string) :
  map dest (actions (parser (obj:=obj) environ))
  = ["help"; "max_depth"; "eta"; "objective"; "train"; "model_dir"].
Proof. reflexivity. Qed.

Lemma parser_action_dest (environ : gmap string string) (a : Action obj) :
  a ∈ actions (parser environ) ->
  dest a ∈ ["help"; "max_depth"; "eta"; "objective"; "train"; "model_dir"].
Proof.
  intros Ha. rewrite <- (parser_dests environ). by apply list_elem_of_fmap_2.
Qed.

(** The namespace before parsing holds the five defaults. *)
Lemma initial_namespace_parser (environ : gmap string string) :
  initial_namespace (parser (obj:=obj) environ)
  = <["model_dir" := environ_get environ "SM_MODEL_DIR"]>
      (<["train" := environ_get environ "SM_CHANNEL_TRAIN"]>
         (<["objective" := VStr "reg:squarederror"]>
            (<["eta" := VFloat 0.2]>
               (<["max_depth" := VInt 5]> ∅)))).
Proof.
  unfold parser.
  generalize (environ_get (obj:=obj) environ "SM_MODEL_DIR").
  generalize (environ_get (obj:=obj) environ "SM_CHANNEL_TRAIN").
  intros v1 v2. vm_compute. reflexivity.
Qed.

Lemma K_is_no_dest :
  "K" ∉ ["help"; "max_depth"; "eta"; "objective"; "train"; "model_dir"].
Proof. set_solver. Qed.

(** No run of [parse_args] defines an attribute [K]. *)
Lemma parse_args_no_K (environ : gmap string string) (argv : list string) args extras :
  parse_args environ argv = Return (args, extras) -> args !! "K" = None.
Proof.
  intros H. unfold parse_args in H.
  rewrite (parse_known_args_frame _ _ _ _ "K" H).
  - by rewrite initial_namespace_parser.
  - apply Forall_forall. intros s _ [[[a|] os] e] Hp; [| done].
    apply parse_optional_action, (parser_action_dest environ) in Hp.
    simpl. apply String.eqb_neq. intros E. rewrite E in Hp.
    by apply K_is_no_dest.
  - apply Forall_forall. intros a Ha%(parser_action_dest environ). left.
    intros E. rewrite E in Ha. by apply K_is_no_dest.
Qed.

(** C5.  Whatever the environment and the command line, every namespace
    [parse_args] returns lacks [K], so [train] raises [AttributeError] at
    [K = args.K] with the world untouched, whatever the other globals; and
    the script as a whole never runs to completion nor changes the world. *)
Theorem train_stops_at_K (environ : gmap string string) (argv : list string) (w : World) :
  (forall args extras k_fold_avg model,
     parse_args environ argv = Return (args, extras) ->
     args !! "K" = None
     /\ train (mkGlobals (Some args) k_fold_avg model) w = (Raise (AttributeError "K"), w))
  /\ (exists r, main environ argv w = (r, w) /\ returned r = false).
Proof.
  assert (Htrain : forall args extras k_fold_avg model,
    parse_args environ argv = Return (args, extras) ->
    args !! "K" = None
    /\ train (mkGlobals (Some args) k_fold_avg model) w = (Raise (AttributeError "K"), w)).
  { intros args extras gk gm HK%parse_args_no_K. split; [done |].
    unfold train, getattr, load_global, mbind, IO_bind. simpl. by rewrite HK. }
  split; [exact Htrain |].
  unfold main. destruct (parse_args environ argv) as [[args extras]|e|c] eqn:E.
  - destruct (Htrain args extras None None eq_refl) as [_ ->]. by eexists.
  - by eexists.
  - by eexists.
Qed.

(** C10.  When no argument selects [--train] and [SM_CHANNEL_TRAIN] is
    unset, [args.train] is [None], the training file path is the literal
    [None/train.csv], and a [train] that got past [K] would look for that
    file; likewise [args.model_dir] is [None] when no argument selects
    [--model_dir] and [SM_MODEL_DIR] is unset. *)
Theorem unset_channel_resolves_to_None (environ : gmap string string)
    (argv : list string) args extras :
  parse_args environ argv = Return (args, extras) ->
  (absent (obj:=obj) environ "train" argv -> environ !! "SM_CHANNEL_TRAIN" = None ->
   args !! "train" = Some VNone
   /\ train_csv (obj:=obj) VNone = "None/train.csv"
   /\ forall K k_fold_avg model w,
        files w !! Path.resolve (cwd w) "None/train.csv" = None ->
        dirs w !! Path.resolve (cwd w) "None/train.csv" = None ->
        train (mkGlobals (Some (<["K" := K]> args)) k_fold_avg model) w
        = (Raise (FileNotFoundError "None/train.csv"), w))
  /\ (absent (obj:=obj) environ "model_dir" argv -> environ !! "SM_MODEL_DIR" = None ->
      args !! "model_dir" = Some VNone).
Proof.
  intros H. unfold parse_args in H.
  assert (Hframe : forall d var,
    absent (obj:=obj) environ d argv -> environ !! var = None ->
    Forall (fun a : Action obj => dest a = d -> default a = Default (environ_get environ var))
           (actions (parser environ)) ->
    args !! d = initial_namespace (parser environ) !! d).
  { intros d var Habs Hvar Hdef.
    apply (parse_known_args_frame _ _ _ _ d H).
    - eapply Forall_impl; [exact Habs |]. intros s Hs t Ht.
      unfold selects in Hs. by rewrite Ht in Hs.
    - eapply Forall_impl; [exact Hdef |]. intros a Ha.
      destruct (decide (dest a = d)) as [Hd|Hd]; [right | by left].
      intros s. rewrite (Ha Hd). unfold environ_get. by rewrite Hvar. }
  split; intros Habs Hvar.
  - assert (Ht : args !! "train" = Some VNone).
    { rewrite (Hframe "train" "SM_CHANNEL_TRAIN" Habs Hvar).
      - rewrite initial_namespace_parser. unfold environ_get. rewrite Hvar.
        by rewrite lookup_insert_ne, lookup_insert_eq.
      - by repeat constructor. }
    split; [exact Ht |]. split; [done |].
    intros K gk gm w Hf Hd.
    unfold train, load_global, getattr, read_csv, open_rb, mbind, IO_bind. simpl.
    rewrite lookup_insert_eq, lookup_insert_ne, Ht by done. simpl.
    change (train_csv VNone) with "None/train.csv". by rewrite Hf, Hd.
  - rewrite (Hframe "model_dir" "SM_MODEL_DIR" Habs Hvar).
    + rewrite initial_namespace_parser. unfold environ_get. rewrite Hvar.
      by rewrite lookup_insert_eq.
    + by repeat constructor.
Qed.

End Resolver.

(** ** The resolver: reading a command line *)

Section Reading.
Context {obj : Type} `{RT : Runtime obj}.
Import argparse.

Ltac abstract_environ environ :=
  unfold parser, flag_action, flag_default;
  generalize (environ_get (obj:=obj) environ "SM_MODEL_DIR");
  generalize (environ_get (obj:=obj) environ "SM_CHANNEL_TRAIN");
  intros ? ?.

Lemma parser_actions (environ : gmap string string) :
  actions (parser (obj:=obj) environ)
  = help_action :: map (flag_action environ)
                       [F_max_depth; F_eta; F_objective; F_train; F_model_dir].
Proof. reflexivity. Qed.

Lemma parser_option_strings (environ : gmap string string) :
  map fst (option_string_actions (parser (obj:=obj) environ)) = option_strings_of_script.
Proof. reflexivity. Qed.

(** An option string selects its action. *)
Lemma parse_optional_flag (environ : gmap string string) (f : flag) :
  parse_optional (parser (obj:=obj) environ) (flag_option f)
  = Return (Some (Some (flag_action environ f), flag_option f, None)).
Proof. abstract_environ environ. destruct f; vm_compute; reflexivity. Qed.

(** An option string with [=value] attached selects its action, with the
    value as explicit argument. *)
Lemma parse_optional_joined (environ : gmap string string) (f : flag) (v : string) :
  parse_optional (parser (obj:=obj) environ) (flag_option f +:+ "=" +:+ v)
  = Return (Some (Some (flag_action environ f), flag_option f, Some v)).
Proof. abstract_environ environ. destruct f; vm_compute; reflexivity. Qed.

Lemma parse_optional_help (environ : gmap string string) (long : bool) :
  parse_optional (parser (obj:=obj) environ) (if long then "--help" else "-h")
  = Return (Some (Some help_action, if long then "--help" else "-h", None)).
Proof. destruct long; vm_compute; reflexivity. Qed.

Lemma flag_option_not_sep (f : flag) : String.eqb (flag_option f) "--" = false.
Proof. by destruct f. Qed.

Lemma joined_not_sep (f : flag) (v : string) :
  String.eqb (flag_option f +:+ "=" +:+ v) "--" = false.
Proof. by destruct f. Qed.

Lemma assoc_None {A} (s : string) (l : list (string * A)) :
  Forall (fun k => String.eqb s k = false) (map fst l) -> assoc s l = None.
Proof.
  induction l as [|[k a] l IH]; simpl; [done |].
  intros [Hk Hl]%Forall_cons. rewrite Hk. auto.
Qed.

Lemma flat_map_nil {A B} (f : A -> list B) (l : list A) :
  Forall (fun x => f x = []) l -> flat_map f l = [].
Proof.
  induction l as [|x l IH]; simpl; [done |].
  intros [Hx Hl]%Forall_cons. rewrite Hx. auto.
Qed.

Lemma startswith_refl (s : string) : Str.startswith s s = true.
Proof. induction s as [|c s IH]; simpl; [done |]. by rewrite Ascii.eqb_refl. Qed.

(** A string that begins with a dash followed by neither a dash nor [h]
    is no option string of the script. *)
Lemma single_dash_no_option (environ : gmap string string) (c : ascii) (x : string) :
  Ascii.eqb c "-" = false -> Ascii.eqb c "h" = false ->
  assoc (String "-" (String c x)) (option_string_actions (parser (obj:=obj) environ)) = None.
Proof.
  intros Hd Hh. apply assoc_None. rewrite parser_option_strings.
  repeat constructor; simpl; by rewrite ?Hd, ?Hh.
Qed.

Lemma single_dash_no_tuples (environ : gmap string string) (c : ascii) (x : string) :
  Ascii.eqb c "-" = false -> Ascii.eqb c "h" = false ->
  get_option_tuples (parser (obj:=obj) environ) (String "-" (String c x)) = [].
Proof.
  intros Hd Hh. unfold get_option_tuples.
  change (prefix_char "-") with true. change (prefix_char c) with (Ascii.eqb c "-").
  rewrite Hd. cbv iota beta. change (true && false) with false. cbv iota.
  assert (Hd' : Ascii.eqb "-" c = false) by (by rewrite Ascii.eqb_sym).
  assert (Hh' : Ascii.eqb "h" c = false) by (by rewrite Ascii.eqb_sym).
  apply flat_map_nil.
  abstract_environ environ.
  repeat constructor; cbn [String.eqb Str.startswith]; by rewrite ?Hd', ?Hh'.
Qed.

(** A string that is the beginning of no option string is no option
    string itself. *)
Lemma no_prefix_no_option (environ : gmap string string) (s : string) :
  Forall (fun o => Str.startswith o s = false) option_strings_of_script ->
  assoc s (option_string_actions (parser (obj:=obj) environ)) = None.
Proof.
  intros H. apply assoc_None. rewrite parser_option_strings.
  eapply Forall_impl; [exact H |]. intros o Ho.
  destruct (String.eqb_spec s o) as [->|]; [| done].
  by rewrite startswith_refl in Ho.
Qed.

Lemma double_dash_no_tuples (environ : gmap string string) (rest : string) :
  Forall (fun o => Str.startswith o (before_eq (String "-" (String "-" rest))) = false)
         option_strings_of_script ->
  get_option_tuples (parser (obj:=obj) environ) (String "-" (String "-" rest)) = [].
Proof.
  intros H. unfold get_option_tuples.
  change (prefix_char "-" && prefix_char "-") with true. cbv iota.
  unfold before_eq in H.
  assert (Hflat : forall (prefix : string) (e : option string),
    Forall (fun o => Str.startswith o prefix = false) option_strings_of_script ->
    flat_map (fun '(os, a) => if Str.startswith os prefix
                              then [(Some a, os, e)] else [])
             (option_string_actions (parser (obj:=obj) environ)) = []).
  { intros prefix e Hp. apply flat_map_nil.
    rewrite <- (parser_option_strings environ), Forall_fmap in Hp.
    eapply Forall_impl; [exact Hp |]. intros [os a] Hos. simpl in *. by rewrite Hos. }
  destruct (Str.split1 "=" _) as [[before after]|]; by apply Hflat.
Qed.

Lemma forallb_Forall {A} (f : A -> bool) (l : list A) :
  forallb f l = true -> Forall (fun x => f x = true) l.
Proof.
  induction l as [|x l IH]; simpl; [constructor |].
  intros [Hx Hl]%andb_true_iff. constructor; auto.
Qed.

Lemma startswith_split1 (o s before after : string) (c : ascii) :
  Str.split1 c s = Some (before, after) ->
  Str.startswith o s = true -> Str.startswith o before = true.
Proof.
  revert o before. induction s as [|x s IH]; intros o before; simpl; [done |].
  destruct (Ascii.eqb x c); [by intros [= <- _] |].
  destruct (Str.split1 c s) as [[b a]|]; [| done].
  intros [= <- <-]. destruct o as [|y o]; [done |]. simpl.
  intros [-> Ho]%andb_true_iff. simpl. by apply IH.
Qed.

Lemma startswith_before_eq (o s : string) :
  Str.startswith o (before_eq s) = false -> Str.startswith o s = false.
Proof.
  unfold before_eq. destruct (Str.split1 "=" s) as [[before after]|] eqn:Es; [| done].
  intros Hb. destruct (Str.startswith o s) eqn:Eo; [| done].
  by rewrite (startswith_split1 _ _ _ _ _ Es Eo) in Hb.
Qed.

(** The parser finds no option in an unrecognized argument string: it is
    an argument or an option without action, as [other_pattern] says. *)
Lemma parse_optional_unrecognized (environ : gmap string string) (s : string) :
  unrecognized s = true ->
  parse_optional (parser (obj:=obj) environ) s
  = Return (match other_pattern s with pO t => Some t | _ => None end)
  /\ String.eqb s "--" = false.
Proof.
  unfold unrecognized. intros [Hsep H]%andb_true_iff.
  apply negb_true_iff in Hsep. split; [| done].
  destruct s as [|c0 tail]; [done |].
  unfold parse_optional, other_pattern.
  destruct (negb (prefix_char c0)) eqn:E0; [done |].
  apply negb_false_iff, Ascii.eqb_eq in E0 as ->.
  destruct tail as [|c rest].
  { abstract_environ environ. vm_compute. reflexivity. }
  set (s := String "-" (String c rest)) in *.
  assert (Hfacts :
    assoc s (option_string_actions (parser (obj:=obj) environ)) = None
    /\ (forall before after, Str.split1 "=" s = Some (before, after) ->
        assoc before (option_string_actions (parser (obj:=obj) environ)) = None)
    /\ get_option_tuples (parser (obj:=obj) environ) s = []).
  { destruct (Ascii.eqb c "-") eqn:Ed.
    - apply Ascii.eqb_eq in Ed as ->.
      apply forallb_Forall in H.
      assert (Hall : Forall (fun o => Str.startswith o (before_eq s) = false)
                            option_strings_of_script).
      { eapply Forall_impl; [exact H |]. intros o Ho. by apply negb_true_iff. }
      split_and!.
      + apply no_prefix_no_option.
        eapply Forall_impl; [exact Hall |]. intros o. apply startswith_before_eq.
      + intros before after Es. apply no_prefix_no_option.
        unfold before_eq in Hall. by rewrite Es in Hall.
      + by apply double_dash_no_tuples.
    - apply negb_true_iff in H. split_and!.
      + by apply single_dash_no_option.
      + intros before after. subst s. simpl.
        destruct (Ascii.eqb c "=").
        * intros [= <- _]. abstract_environ environ. vm_compute. reflexivity.
        * destruct (Str.split1 "=" rest) as [[b a]|]; [| done].
          intros [= <- _]. by apply single_dash_no_option.
      + by apply single_dash_no_tuples. }
  destruct Hfacts as (-> & Hsplit & ->).
  change (String.eqb (String c rest) "") with false. cbv iota.
  destruct (Str.split1 "=" s) as [[before after]|] eqn:Es.
  - rewrite (Hsplit _ _ eq_refl).
    destruct (negative_number s); [done |]. by destruct (Str.contains " " s).
  - destruct (negative_number s); [done |]. by destruct (Str.contains " " s).
Qed.

Lemma chomp_cons (c : ascii) (rest : string) :
  chomp (String c rest) = "" \/ exists x, chomp (String c rest) = String c x.
Proof.
  destruct rest as [|c1 r]; simpl.
  - destruct (Ascii.eqb c "010"); eauto.
  - eauto.
Qed.

(** After its dash a negative number goes on with a digit or a point. *)
Lemma negative_number_second (c : ascii) (rest : string) :
  negative_number (String "-" (String c rest)) = true ->
  Str.is_digit c = true \/ c = "."%char.
Proof.
  unfold negative_number.
  destruct (chomp_cons c rest) as [->|[x ->]]; [done |].
  intros [H|H]%orb_true_iff.
  - apply andb_true_iff in H as [H _]. by left.
  - simpl in H. destruct (Ascii.eqb_spec c "."); [by right |].
    destruct (Str.split1 "." x) as [[a b]|]; [| done].
    apply andb_true_iff in H as [H _]. simpl in H.
    apply andb_true_iff in H as [H _]. by left.
Qed.

Lemma negative_number_inv (v : string) :
  negative_number v = true ->
  exists c rest, v = String "-" (String c rest)
                 /\ Ascii.eqb c "-" = false /\ Ascii.eqb c "h" = false.
Proof.
  intros H. destruct v as [|c0 [|c rest]]; [done | |].
  - by destruct c0 as [[] [] [] [] [] [] [] []].
  - assert (c0 = "-"%char) as ->
      by (by destruct c0 as [[] [] [] [] [] [] [] []]).
    exists c, rest. split; [done |].
    destruct (negative_number_second _ _ H) as [Hc| ->]; [| done].
    split; apply Ascii.eqb_neq; by intros ->.
Qed.

(** A value of the shape [argument_like] is read as an argument, and is
    not the separator. *)
Lemma parse_optional_argument_like (environ : gmap string string) (v : string) :
  argument_like v = true ->
  parse_optional (parser (obj:=obj) environ) v = Return None
  /\ String.eqb v "--" = false.
Proof.
  unfold argument_like. intros [H|H]%orb_true_iff.
  - apply negb_true_iff in H. destruct v as [|c0 tail]; [done |].
    simpl in H. rewrite andb_true_r in H.
    unfold parse_optional, prefix_char. simpl. by rewrite H.
  - destruct (negative_number_inv v H) as (c & rest & -> & Hd & Hh).
    assert (Hu : unrecognized (String "-" (String c rest)) = true).
    { unfold unrecognized. simpl. by rewrite Hd, Hh. }
    destruct (parse_optional_unrecognized environ _ Hu) as [-> Hsep].
    split; [| done].
    unfold other_pattern. change (negb (prefix_char "-")) with false. cbv iota.
    change (String.eqb (String c rest) "") with false. cbv iota. by rewrite H.
Qed.

Lemma classify_cons (p : Parser obj) (s : string) (rest : list string) o toks :
  String.eqb s "--" = false ->
  parse_optional p s = Return o ->
  classify p rest = Return toks ->
  classify p (s :: rest)
  = Return ((s, match o with Some t => pO t | None => pA end) :: toks).
Proof. intros Hs Ho Hr. simpl. by rewrite Hs, Ho, Hr. Qed.

Lemma other_pattern_cases (s : string) :
  other_pattern (obj:=obj) s = pA \/ other_pattern (obj:=obj) s = pO (None, s, None).
Proof. unfold other_pattern. repeat case_match; auto. Qed.

(** The first pass on a command line of well-shaped items. *)
Lemma classify_render (environ : gmap string string) (inv : list item) :
  Forall item_shape inv ->
  classify (parser (obj:=obj) environ) (render inv) = Return (flat_map (item_tokens environ) inv).
Proof.
  induction inv as [|it inv IH]; [done |].
  intros [Hit Hinv]%Forall_cons. specialize (IH Hinv).
  unfold render in *. cbn [flat_map].
  destruct it as [f v [|]|[|]|s]; cbn [render_item item_tokens app].
  - by rewrite (classify_cons _ _ _ _ _ (joined_not_sep f v)
                  (parse_optional_joined environ f v) IH).
  - destruct (parse_optional_argument_like environ v Hit) as [Hv Hsep].
    rewrite (classify_cons _ _ _ _ _ (flag_option_not_sep f)
               (parse_optional_flag environ f)
               (classify_cons _ _ _ _ _ Hsep Hv IH)).
    done.
  - by rewrite (classify_cons _ "--help" _ _ _ eq_refl
                  (parse_optional_help environ true) IH).
  - by rewrite (classify_cons _ "-h" _ _ _ eq_refl
                  (parse_optional_help environ false) IH).
  - destruct (parse_optional_unrecognized environ s Hit) as [Hs Hsep].
    rewrite (classify_cons _ _ _ _ _ Hsep Hs IH).
    by destruct (other_pattern_cases s) as [-> | ->].
Qed.

(** The type function of an option's action is the coercion of the option. *)
Lemma get_value_coerce (environ : gmap string string) (f : flag) (v : string) :
  match coerce f v with
  | Some x => get_value (flag_action environ f) v = Return x
  | None => exists msg, get_value (flag_action environ f) v = Raise (ArgumentError msg)
  end.
Proof.
  unfold coerce, get_value.
  destruct f; simpl; try done.
  - destruct (py_int v); simpl; eauto.
  - destruct (py_float v); simpl; eauto.
Qed.

(** Taking the action of an option on one value that is not the separator. *)
Lemma take_action_flag (environ : gmap string string) (f : flag) (v : string)
    (st : Parsed obj) :
  v <> "--" ->
  match coerce f v with
  | Some x => exists sn, take_action (flag_action environ f) [v] st
                         = Return (mkParsed (<[flag_dest f := x]> (namespace st))
                                            (extras st) sn)
  | None => exists msg, take_action (flag_action environ f) [v] st
                        = Raise (ArgumentError msg)
  end.
Proof.
  intros Hv%String.eqb_neq. unfold take_action, get_values.
  cbn [remove_first]. rewrite Hv.
  pose proof (get_value_coerce environ f v) as H.
  destruct (coerce f v) as [x|].
  - rewrite H. by eexists.
  - destruct H as [msg ->]. by eexists.
Qed.

(** The second pass on the pattern entries of well-shaped items reads the
    items one by one. *)
Lemma consume_render (environ : gmap string string) (inv : list item) (st : Parsed obj) :
  Forall item_shape inv ->
  amounts_to (consume (parser (obj:=obj) environ) (flat_map (item_tokens environ) inv) 0 st)
             (read_items inv (namespace st) (extras st)).
Proof.
  revert st. induction inv as [|it inv IH]; intros st.
  { intros _. simpl. destruct st. constructor. }
  intros [Hit Hinv]%Forall_cons.
  cbn [flat_map]. destruct it as [f v [|]|long|s]; cbn [item_tokens app read_items].
  - (* --opt=value *)
    cbn [consume consume_optional]. simpl in Hit.
    change (match_argument (flag_action environ f) [pA]) with (Some 1).
    cbv iota. pose proof (take_action_flag environ f v st Hit) as Ht.
    destruct (coerce f v) as [x|].
    + destruct Ht as [sn ->]. simpl. apply (IH (mkParsed _ _ sn) Hinv).
    + destruct Ht as [msg ->]. simpl. constructor.
  - (* --opt value *)
    cbn [consume consume_optional map snd fst].
    change (match_argument (flag_action environ f) (pA :: _)) with (Some 1).
    cbv iota. change (take 1 (v :: ?l)) with [v].
    destruct (parse_optional_argument_like environ v Hit) as [_ Hv%String.eqb_neq].
    pose proof (take_action_flag environ f v st Hv) as Ht.
    destruct (coerce f v) as [x|].
    + destruct Ht as [sn ->]. simpl. apply (IH (mkParsed _ _ sn) Hinv).
    + destruct Ht as [msg ->]. simpl. constructor.
  - (* -h, --help *)
    destruct long; constructor.
  - (* anything else *)
    destruct (other_pattern_cases s) as [-> | ->]; cbn [consume consume_optional];
      simpl; apply (IH (add_extra s st) Hinv).
Qed.

(** Converting a string default with the identity leaves the namespace
    as it is. *)
Lemma convert_default_id (st : Parsed obj) (a : Action obj) :
  kind a = Store type_str \/ (forall s, default a <> Default (VStr s)) ->
  exists sn, convert_default st a = Return (mkParsed (namespace st) (extras st) sn).
Proof.
  intros Ha. unfold convert_default.
  assert (Hst : exists sn, Return (A:=Parsed obj) st
                           = Return (mkParsed (namespace st) (extras st) sn))
    by (destruct st; by eexists).
  destruct (existsb _ _); [done |].
  destruct (default a) as [[| | |s| |]|] eqn:Ed; try done.
  destruct (namespace st !! dest a) as [[| | |s'| |]|] eqn:Ens; try done.
  destruct (String.eqb_spec s s') as [<-|]; [| done].
  destruct Ha as [Hk|Hn]; [| by destruct (Hn s)].
  unfold get_value. rewrite Hk. simpl. unfold setattr. simpl.
  rewrite insert_id by done. by eexists.
Qed.

Lemma convert_defaults_id (acts : list (Action obj)) (st : Parsed obj) :
  Forall (fun a => kind a = Store type_str \/ (forall s, default a <> Default (VStr s))) acts ->
  exists sn, convert_defaults acts st = Return (mkParsed (namespace st) (extras st) sn).
Proof.
  revert st. induction acts as [|a acts IH]; intros st.
  - intros _. destruct st. by eexists.
  - intros [Ha Hacts]%Forall_cons. simpl.
    destruct (convert_default_id st a Ha) as [sn ->]. simpl.
    apply (IH (mkParsed _ _ sn) Hacts).
Qed.

Lemma parser_defaults_convert (environ : gmap string string) :
  Forall (fun a : Action obj =>
            kind a = Store type_str \/ (forall s, default a <> Default (VStr s)))
         (actions (parser environ)).
Proof.
  rewrite parser_actions. cbn [map].
  repeat apply Forall_cons_2; try apply Forall_nil; first [by left | by right | done].
Qed.

(** Parsing a command line of well-shaped items is reading its items one
    by one, starting from the defaults. *)
Lemma parse_args_render (environ : gmap string string) (inv : list item) :
  Forall item_shape inv ->
  parse_args environ (render inv) = read_items inv (defaults environ) [].
Proof.
  intros Hinv. unfold parse_args, parse_known_args.
  rewrite (classify_render environ inv Hinv). cbn [mbind outcome_bind].
  pose proof (consume_render environ inv
                (mkParsed (initial_namespace (parser environ)) [] []) Hinv) as H.
  cbn [namespace extras] in H. rewrite initial_namespace_parser in *.
  fold (defaults (obj:=obj) environ) in *.
  inversion H as [ns ex sn Hc Hr | msg Hc Hr | c Hc Hr]; cbn [mbind outcome_bind finish];
    try done.
  destruct (convert_defaults_id (actions (parser environ)) (mkParsed ns ex sn)
              (parser_defaults_convert environ)) as [sn' ->].
  done.
Qed.


(** Reading returns exactly when no help flag occurs and every value
    given coerces. *)
Lemma read_items_returns (inv : list item) (ns : gmap string (value obj)) ex :
  coercible inv -> no_help inv ->
  exists ns', read_items inv ns ex = Return (ns', (ex ++ other_strings inv)%list).
Proof.
  revert ns ex. induction inv as [|it inv IH]; intros ns ex; simpl.
  - intros _ _. rewrite app_nil_r. by eexists.
  - intros [Hc Hcs]%Forall_cons [Hh Hhs]%Forall_cons.
    destruct it as [f v j|long|s]; [| done |].
    + destruct Hc as [x ->]. by apply IH.
    + rewrite app_assoc. by apply IH.
Qed.



(** Coercion fails only on an integer or a float that does not parse. *)
Lemma coerce_None (f : flag) (v : string) :
  coerce f v = None <->
  (f = F_max_depth /\ py_int v = None) \/ (f = F_eta /\ py_float v = None).
Proof.
  unfold coerce. destruct f; simpl.
  - destruct (py_int v); naive_solver.
  - destruct (py_float v); naive_solver.
  - naive_solver.
  - naive_solver.
  - naive_solver.
Qed.






End Reading.

(** ** Concrete runs of the resolver *)

Ltac each_item :=
  repeat first [apply Forall_nil_2 | apply Forall_cons_2];
  first [reflexivity | exact I | by eexists | done].

Example main_sample :
  main (RT:=TestRuntime.runtime) Sample.environ ["--max_depth"; "7"] Sample.world
  = (Raise (AttributeError "K"), Sample.world).
Proof. vm_compute. reflexivity. Qed.

Example selects_sample :
  selects (obj:=nat) ∅ "train" "--train" = true
  /\ selects (obj:=nat) ∅ "train" "--tr=/data" = true
  /\ selects (obj:=nat) ∅ "train" "--eta" = false
  /\ selects (obj:=nat) ∅ "train" "train" = false.
Proof. repeat split. Qed.

Example unrecognized_sample :
  unrecognized "--num_round" = true /\ unrecognized "--verbose=1" = true
  /\ unrecognized "-v" = true /\ unrecognized "100" = true
  /\ unrecognized "--max" = false /\ unrecognized "--m" = false
  /\ unrecognized "--help" = false /\ unrecognized "-h" = false
  /\ unrecognized "--eta=1" = false /\ unrecognized "--" = false.
Proof. repeat split. Qed.






Lemma unset_channel_resolves_to_None_witness :
  exists args,
    parse_args (RT:=TestRuntime.runtime) ∅ ["--max_depth"; "3"] = Return (args, [])
    /\ args !! "train" = Some VNone
    /\ args !! "model_dir" = Some VNone
    /\ train_csv (RT:=TestRuntime.runtime) VNone = "None/train.csv".
Proof.
  set (args := <["max_depth" := VInt 3]> (defaults (obj:=nat) ∅)).
  assert (H : parse_args (RT:=TestRuntime.runtime) ∅ ["--max_depth"; "3"]
              = Return (args, [])) by (vm_compute; reflexivity).
  destruct (unset_channel_resolves_to_None (RT:=TestRuntime.runtime) ∅ _ args [] H)
    as [Ht Hm].
  exists args. split; [exact H |].
  destruct Ht as (Ht & Hcsv & _); [each_item | done |].
  split; [exact Ht |]. split; [| exact Hcsv].
  apply Hm; [each_item | done].
Defined.

(** * Further properties of the loader and the driver *)

Section LoaderDriver.
Context {obj : Type} `{RT : Runtime obj}.

Ltac unfold_train :=
  unfold train, train_csv, load_global, getattr, read_csv, add_str, pickle_dump,
    open_rb, open_wb, write_all, print, logging_info, set_files, raise,
    mbind, IO_bind, mret, IO_ret in *.

(** X1.  [model_fn] only reads: it leaves the world as it is whatever
    happens, and it returns [v] exactly when the directory holds a readable
    file [xgboost-model] whose content [pickle] decodes to [v]. *)
Theorem model_fn_spec (d : string) (w : World) :
  (model_fn d w).2 = w
  /\ forall v, (model_fn d w).1 = Return v <->
       exists f, files w !! (Path.resolve (cwd w) d ++ [model_file])%list = Some f
                 /\ readable f = true /\ pickle_loads (content f) = Some v.
Proof.
  unfold model_fn, pickle_load, open_rb, raise, mbind, IO_bind, mret, IO_ret.
  rewrite resolve_join_model_file.
  destruct (files w !! _) as [f|]; simpl.
  - destruct (readable f) eqn:Er; simpl.
    + destruct (pickle_loads (content f)) as [v0|] eqn:Ev; simpl.
      * split; [done |]. intros v. split.
        -- intros [= <-]. by exists f.
        -- intros (f' & [= <-] & _ & Hv). congruence.
      * split; [done |]. intros v. split; [done |].
        intros (f' & [= <-] & _ & Hv). congruence.
    + split; [done |]. intros v. split; [done |].
      intros (f' & [= <-] & Hr & _). congruence.
  - destruct (dirs w !! _); simpl; (split; [done |]); intros v;
      (split; [done | by intros (f' & ? & _)]).
Qed.

(** X2.  The loader finds the artifact under any spelling of the model
    directory: after a run of [train] that returns, with a non-empty
    [model_dir], [model_fn d'] returns the decoded model for every path
    [d'] that names the same directory (repeated or trailing separators, a
    relative path from the working directory). *)
Theorem model_fn_after_train_respelled (g : Globals) (w w' : World)
    (args : gmap string (value obj)) (d d' : string) (m m' : value obj) (bs : list byte) :
  g_args g = Some args -> args !! "model_dir" = Some (VStr d) -> d <> "" ->
  Path.resolve (cwd w) d' = Path.resolve (cwd w) d ->
  g_model g = Some m ->
  pickle_dumps m = Some bs -> pickle_loads bs = Some m' ->
  readable_if_present w (d +:+ "/xgboost-model") ->
  train g w = (Return tt, w') ->
  model_fn d' w' = (Return m', w').
Proof.
  intros Hargs Hd Hne Hsame Hm Hbs Hm' Hr H.
  apply train_returns_inv in H
    as (args' & d0 & m0 & k & bs' & r & Hargs' & Hd' & Hm0 & _ & Hbs' & Hr1 & Hr2 & ->).
  simplify_eq.
  unfold model_fn, mbind, IO_bind, open_rb. simpl.
  rewrite resolve_join_model_file, Hsame, <- resolve_model_location by done.
  rewrite lookup_insert_eq. simpl.
  assert (r = true) as ->.
  { destruct (files w !! Path.resolve (cwd w) (d +:+ "/xgboost-model")) as [f|] eqn:E.
    - rewrite (Hr1 f eq_refl). by apply Hr.
    - by apply Hr2. }
  unfold pickle_load. by rewrite Hm'.
Qed.

(** X3.  Whatever its outcome, [train] leaves the working directory and
    the directories as they are, and the only file it can change is the
    one at [args.model_dir + "/xgboost-model"]; when [args.model_dir] is
    no string it changes no file at all. *)
Theorem train_frame (g : Globals) (w : World) :
  cwd (train g w).2 = cwd w
  /\ dirs (train g w).2 = dirs w
  /\ forall q, files (train g w).2 !! q <> files w !! q ->
       exists args d, g_args g = Some args /\ args !! "model_dir" = Some (VStr d)
                      /\ q = Path.resolve (cwd w) (d +:+ "/xgboost-model").
Proof.
  unfold_train.
  destruct (g_args g) as [args|] eqn:Eargs; simpl; [| done].
  destruct (args !! "K") as [K|]; simpl; [| done].
  destruct (args !! "train") as [v|]; simpl; [| done].
  destruct (files w !! Path.resolve (cwd w) (py_str v +:+ "/train.csv")) as [csv|];
    simpl; [| by destruct (dirs w !! _)].
  destruct (readable csv); simpl; [| done].
  destruct (csv_parses (content csv)); simpl; [| done].
  destruct (g_k_fold_avg g) as [k|]; simpl; [| done].
  destruct (args !! "model_dir") as [[| | |d| |]|] eqn:Ed; simpl; try done.
  destruct (g_model g) as [m|]; simpl; [| done].
  set (p := Path.resolve (cwd w) (d +:+ "/xgboost-model")).
  assert (Hp : forall (fs : gmap (list string) file),
    (forall q, q <> p -> fs !! q = files w !! q) ->
    forall q, fs !! q <> files w !! q ->
      exists args0 d0, Some args = Some args0 /\ args0 !! "model_dir" = Some (VStr d0)
                       /\ q = Path.resolve (cwd w) (d0 +:+ "/xgboost-model")).
  { intros fs Hfs q Hq. exists args, d. split_and!; try done.
    destruct (decide (q = p)) as [->|Hne]; [done |]. by destruct Hq; apply Hfs. }
  destruct (files w !! p) as [old|].
  - destruct (writable old); simpl; [| done].
    destruct (pickle_dumps m); simpl; (split_and!; [done | done |]); apply Hp;
      intros q Hq; by rewrite ?lookup_alter_ne, lookup_insert_ne.
  - destruct (dirs w !! p); simpl; [done |].
    destruct (dirs w !! parent p) as [[|]|]; simpl; try done.
    destruct (pickle_dumps m); simpl; (split_and!; [done | done |]); apply Hp;
      intros q Hq; by rewrite ?lookup_alter_ne, lookup_insert_ne.
Qed.

(** X4.  [train] cannot get past the names the script never assigns: with
    [k_fold_avg] unbound it raises and the world is as before; with [model]
    unbound it raises and no file is changed. *)
Theorem train_needs_metric_and_model (g : Globals) (w : World) :
  (g_k_fold_avg g = None -> exists e, train g w = (Raise e, w))
  /\ (g_model g = None ->
      exists e, (train g w).1 = Raise e /\ files (train g w).2 = files w).
Proof.
  split; intros Hnone; unfold_train; rewrite Hnone.
  - destruct (g_args g) as [args|]; simpl; [| by eexists].
    destruct (args !! "K") as [K|]; simpl; [| by eexists].
    destruct (args !! "train") as [v|]; simpl; [| by eexists].
    destruct (files w !! _) as [csv|]; simpl; [| destruct (dirs w !! _); by eexists].
    destruct (readable csv); simpl; [| by eexists].
    destruct (csv_parses (content csv)); simpl; by eexists.
  - destruct (g_args g) as [args|]; simpl; [| by eexists].
    destruct (args !! "K") as [K|]; simpl; [| by eexists].
    destruct (args !! "train") as [v|]; simpl; [| by eexists].
    destruct (files w !! _) as [csv|]; simpl; [| destruct (dirs w !! _); by eexists].
    destruct (readable csv); simpl; [| by eexists].
    destruct (csv_parses (content csv)); simpl; [| by eexists].
    destruct (g_k_fold_avg g) as [k|]; simpl; [| by eexists].
    destruct (args !! "model_dir") as [[| | |d| |]|]; simpl; by eexists.
Qed.

(** X5.  When [args.model_dir] is not a string (it is [None] when neither
    the flag nor [SM_MODEL_DIR] gives it), a [train] that got as far as the
    model location has already printed the fold metric and raises
    [TypeError] there, before it looks [model] up or opens any file. *)
Theorem train_model_dir_not_a_string (g : Globals) (w : World)
    (args : gmap string (value obj)) (K t k v : value obj) (csv : file) model :
  g = mkGlobals (Some args) (Some k) model ->
  args !! "K" = Some K -> args !! "train" = Some t ->
  files w !! Path.resolve (cwd w) (train_csv t) = Some csv ->
  readable csv = true -> csv_parses (content csv) = true ->
  args !! "model_dir" = Some v -> (forall d, v <> VStr d) ->
  train g w
  = (Raise TypeError,
     mkWorld (cwd w) (files w) (dirs w)
       (printed w ++ ["RMSE average across folds: " +:+ py_str k]) (logged w)).
Proof.
  intros -> HK Ht Hcsv Hr Hp Hv Hns. unfold_train. simpl.
  rewrite HK. simpl. rewrite Ht. simpl. rewrite Hcsv. simpl. rewrite Hr. simpl.
  rewrite Hp. simpl. rewrite Hv. simpl.
  destruct v as [| | |d| |]; try done. by destruct (Hns d).
Qed.

End LoaderDriver.

Lemma model_fn_after_train_respelled_witness :
  Path.resolve (cwd Sample.world) "/opt/ml//model/"
  = Path.resolve (cwd Sample.world) "/opt/ml/model"
  /\ model_fn (RT:=TestRuntime.runtime) "/opt/ml//model/" Sample.world_after
     = (Return (VObject 7%nat), Sample.world_after).
Proof.
  split; [done |].
  assert (H : train (RT:=TestRuntime.runtime) Sample.completed Sample.world
              = (Return tt, Sample.world_after)) by (vm_compute; reflexivity).
  apply (model_fn_after_train_respelled (RT:=TestRuntime.runtime) Sample.completed
           Sample.world Sample.world_after Sample.completed_args "/opt/ml/model"
           "/opt/ml//model/" (VObject 7%nat) (VObject 7%nat) [x4f; x37]); done.
Defined.

Lemma train_model_dir_not_a_string_witness :
  train (RT:=TestRuntime.runtime) MoreSamples.completed_no_model_dir Sample.world
  = (Raise TypeError, MoreSamples.world_after_print).
Proof.
  apply (train_model_dir_not_a_string (RT:=TestRuntime.runtime)
           MoreSamples.completed_no_model_dir Sample.world
           (<["model_dir" := VNone]> Sample.completed_args)
           (VInt 5) (VStr "/opt/ml/input/data/train") (VInt 1) VNone
           (File true true [x31; x2c; x32; x0a]) (Some (VObject 7%nat))); done.
Defined.

(** * Further properties of the resolver *)

Section ResolverMore.
Context {obj : Type} `{RT : Runtime obj}.
Import argparse.

Lemma read_items_app (pre rest : list item) (ns ns' : gmap string (value obj)) ex ex' :
  read_items pre ns ex = Return (ns', ex') ->
  read_items (pre ++ rest) ns ex = read_items rest ns' ex'.
Proof.
  revert ns ex. induction pre as [|it pre IH]; intros ns ex; simpl.
  - by intros [= <- <-].
  - destruct it as [f v j|long|s]; [| done | apply IH].
    destruct (coerce f v); [apply IH | done].
Qed.

(** X6.  On a command line of well-shaped items, a help flag that comes
    after values that all coerce ends the process with status 0 during
    argument parsing, whatever follows it, with the world untouched. *)
Theorem help_flag_exits (environ : gmap string string) (pre post : list item)
    (long : bool) (w : World) :
  Forall item_shape (pre ++ HelpFlag long :: post) ->
  coercible pre -> no_help pre ->
  parse_args environ (render (pre ++ HelpFlag long :: post)) = SysExit 0
  /\ main environ (render (pre ++ HelpFlag long :: post)) w = (SysExit 0, w).
Proof.
  intros Hs Hc Hh.
  assert (Hp : parse_args environ (render (pre ++ HelpFlag long :: post)) = SysExit 0).
  { rewrite (parse_args_render environ _ Hs).
    destruct (read_items_returns pre (defaults environ) [] Hc Hh) as [ns Hns].
    by rewrite (read_items_app _ _ _ _ _ _ Hns). }
  split; [exact Hp |]. unfold main. by rewrite Hp.
Qed.

Lemma read_items_unspell (inv : list item) (ns : gmap string (value obj)) ex :
  read_items (map unspell inv) ns ex = read_items inv ns ex.
Proof.
  revert ns ex. induction inv as [|it inv IH]; intros ns ex; simpl; [done |].
  destruct it as [f v j|long|s]; simpl; [| done | apply IH].
  destruct (coerce f v); [apply IH | done].
Qed.

(** X7.  The two spellings of an option are interchangeable: command
    lines of well-shaped items that differ only in writing [--opt value] or
    [--opt=value] are parsed to the same outcome. *)
Theorem spelling_is_immaterial (environ : gmap string string) (inv inv' : list item) :
  Forall item_shape inv -> Forall item_shape inv' ->
  map unspell inv = map unspell inv' ->
  parse_args environ (render inv) = parse_args environ (render inv').
Proof.
  intros Hs Hs' Heq. rewrite !parse_args_render by done.
  by rewrite <- (read_items_unspell inv), <- (read_items_unspell inv'), Heq.
Qed.

End ResolverMore.

(** ** How the parser can end, and what it leaves in the namespace *)

Section ParserOutcome.
Context {obj : Type} `{RT : Runtime obj}.
Import argparse.

Lemma parser_outcome_bind {A B} (m : outcome A) (f : A -> outcome B) :
  parser_outcome m -> (forall a, parser_outcome (f a)) -> parser_outcome (m ≫= f).
Proof. destruct m as [a|e|c]; simpl; auto. Qed.

Lemma parse_optional_outcome (p : Parser obj) (s : string) :
  parser_outcome (parse_optional p s).
Proof.
  unfold parse_optional. repeat case_match; simpl; auto.
Qed.

Lemma classify_outcome (p : Parser obj) (args : list string) :
  parser_outcome (classify p args).
Proof.
  induction args as [|s args IH]; simpl; [done |].
  destruct (String.eqb s "--"); [done |].
  apply parser_outcome_bind; [apply parse_optional_outcome |]. intros o.
  by apply parser_outcome_bind.
Qed.

Lemma get_value_outcome (a : Action obj) (s : string) : parser_outcome (get_value a s).
Proof. unfold get_value. by repeat case_match. Qed.

Lemma get_values_outcome (a : Action obj) (l : list string) :
  parser_outcome (get_values a l).
Proof.
  assert (Heach : forall l', parser_outcome (get_value_each a l')).
  { induction l' as [|s l' IH]; simpl; [done |].
    apply parser_outcome_bind; [apply get_value_outcome |]. intros v.
    by apply parser_outcome_bind. }
  unfold get_values. destruct (remove_first "--" l) as [|s [|s' l']].
  - by apply parser_outcome_bind.
  - apply get_value_outcome.
  - by apply parser_outcome_bind.
Qed.

Lemma take_action_outcome (a : Action obj) (l : list string) (st : Parsed obj) :
  parser_outcome (take_action a l st).
Proof.
  unfold take_action. destruct (kind a); simpl; [| by left].
  apply parser_outcome_bind; [apply get_values_outcome | done].
Qed.

Lemma consume_optional_outcome (p : Parser obj) t s rest (st : Parsed obj) :
  parser_outcome (consume_optional p t s rest st).
Proof.
  unfold consume_optional. destruct t as [[[a|] os] [e|]]; try done.
  - destruct (match_argument a [pA]) as [[|[|n]]|]; try done.
    + destruct (_ && _); [| done].
      apply parser_outcome_bind; [apply take_action_outcome | done].
    + apply parser_outcome_bind; [apply take_action_outcome | done].
  - destruct (match_argument a _); [| done].
    apply parser_outcome_bind; [apply take_action_outcome | done].
Qed.

Lemma consume_outcome (p : Parser obj) toks skip (st : Parsed obj) :
  parser_outcome (consume p toks skip st).
Proof.
  revert skip st. induction toks as [|[s pat] toks IH]; intros skip st; simpl; [done |].
  destruct skip; [| apply IH].
  destruct pat; try apply IH.
  apply parser_outcome_bind; [apply consume_optional_outcome |]. intros r. apply IH.
Qed.

Lemma convert_defaults_outcome (acts : list (Action obj)) (st : Parsed obj) :
  parser_outcome (convert_defaults acts st).
Proof.
  revert st. induction acts as [|a acts IH]; intros st; simpl; [done |].
  apply parser_outcome_bind; [| apply IH].
  unfold convert_default. repeat case_match; try done.
  apply parser_outcome_bind; [apply get_value_outcome | done].
Qed.

(** Whatever the parser and the arguments, [parse_known_args] returns or
    ends the process with status 0 or 2; no exception leaves it. *)
Lemma parse_known_args_outcome (p : Parser obj) (args : list string) :
  (exists r, parse_known_args p args = Return r)
  \/ parse_known_args p args = SysExit 0
  \/ parse_known_args p args = SysExit 2.
Proof.
  unfold parse_known_args.
  assert (H : parser_outcome
    (toks ← classify p args;
     st ← consume p toks 0 (mkParsed (initial_namespace p) [] []);
     convert_defaults (actions p) st)).
  { apply parser_outcome_bind; [apply classify_outcome |]. intros toks.
    apply parser_outcome_bind; [apply consume_outcome |]. intros st.
    apply convert_defaults_outcome. }
  destruct (_ ≫= _) as [st|e|c]; simpl in *.
  - left. by eexists.
  - destruct e; try done. by right; right.
  - destruct H as [-> | ->]; auto.
Qed.

(** X8.  The script ends in one of three ways, and in each of them the
    world is as it was: the help flag ends it with status 0, a usage error
    with status 2, and otherwise [train] raises [AttributeError] for [K]. *)
Theorem main_outcomes (environ : gmap string string) (argv : list string) (w : World) :
  main environ argv w = (SysExit 0, w)
  \/ main environ argv w = (SysExit 2, w)
  \/ main environ argv w = (Raise (AttributeError "K"), w).
Proof.
  unfold main.
  destruct (parse_known_args_outcome (parser environ) argv) as [[[ns ex] H] | [H | H]];
    fold (parse_args environ argv) in H; rewrite H; auto.
  right; right. unfold train, getattr, load_global, mbind, IO_bind. simpl.
  by rewrite (parse_args_no_K _ _ _ _ H).
Qed.

Lemma take_action_dom (a : Action obj) l (st st' : Parsed obj) :
  take_action a l st = Return st' ->
  kind a <> Help /\ dom (namespace st') = {[dest a]} ∪ dom (namespace st).
Proof.
  unfold take_action. destruct (kind a); [| done].
  destruct (get_values a l); simpl; try done.
  intros [= <-]. simpl. split; [done |]. apply dom_insert_L.
Qed.

Lemma consume_optional_dom (p : Parser obj) t s rest (st : Parsed obj) r (D : gset string) :
  consume_optional p t s rest st = Return r ->
  (forall a os e, t = (Some a, os, e) -> kind a = Help \/ dest a ∈ D) ->
  dom (namespace st) = D -> dom (namespace r.2) = D.
Proof.
  unfold consume_optional. intros H Ht HD.
  assert (Hact : forall a l st', (exists os e, t = (Some a, os, e)) ->
                 take_action a l st = Return st' -> dom (namespace st') = D).
  { intros a l st' (os & e & ->) [Hk Hdom]%take_action_dom.
    rewrite Hdom, HD. destruct (Ht a os e eq_refl) as [?|Hin]; [done |]. set_solver. }
  destruct t as [[[a|] os] e]; simpl in *.
  - destruct e as [e|].
    + destruct (match_argument a [pA]) as [[|[|n]]|]; try done.
      * destruct (_ && _); [| done].
        destruct (take_action a [] st) as [st'| |] eqn:E; try done.
        injection H as <-. simpl. eapply Hact; eauto.
      * destruct (take_action a [e] st) as [st'| |] eqn:E; try done.
        injection H as <-. simpl. eapply Hact; eauto.
    + destruct (match_argument a _) as [n|]; [| done].
      destruct (take_action a _ st) as [st'| |] eqn:E; try done.
      injection H as <-. simpl. eapply Hact; eauto.
  - by injection H as <-.
Qed.

Lemma consume_dom (p : Parser obj) toks skip (st st' : Parsed obj) (D : gset string) :
  consume p toks skip st = Return st' ->
  Forall (fun tok => forall a os e, tok.2 = pO (Some a, os, e) ->
                     kind a = Help \/ dest a ∈ D) toks ->
  dom (namespace st) = D -> dom (namespace st') = D.
Proof.
  revert skip st. induction toks as [|[s pat] toks IH]; intros skip st; simpl.
  - by intros [= <-].
  - intros H [Ht Hall]%Forall_cons HD. simpl in Ht.
    destruct skip as [|k]; [| by eapply IH].
    destruct pat as [| |t]; try by apply (IH _ _ H Hall).
    destruct (consume_optional p t s toks st) as [r| |] eqn:E; try done. simpl in H.
    apply (IH _ _ H Hall). eapply consume_optional_dom; eauto.
    intros a os e Ht'. eapply Ht. by rewrite Ht'.
Qed.

Lemma convert_defaults_dom (acts : list (Action obj)) (st st' : Parsed obj) :
  convert_defaults acts st = Return st' -> dom (namespace st') = dom (namespace st).
Proof.
  revert st. induction acts as [|a acts IH]; intros st; simpl.
  - by intros [= <-].
  - destruct (convert_default st a) as [st1| |] eqn:E; try done. simpl.
    intros H. rewrite (IH _ H). clear -E. unfold convert_default in E.
    destruct (existsb _ _); [by injection E as <- |].
    destruct (default a) as [[| | |s| |]|]; try by injection E as <-.
    destruct (namespace st !! dest a) as [[| | |s'| |]|] eqn:Ens; try by injection E as <-.
    destruct (String.eqb s s'); [| by injection E as <-].
    destruct (get_value a s); simpl in E; try done.
    injection E as <-. simpl. rewrite dom_insert_L.
    apply (elem_of_dom_2 (D:=gset string)) in Ens. set_solver.
Qed.

(** X9.  Whatever the environment and the command line, a namespace that
    [parse_args] returns holds exactly the attributes [max_depth], [eta],
    [objective], [train] and [model_dir]. *)
Theorem parse_args_attributes (environ : gmap string string) (argv : list string)
    (ns : gmap string (value obj)) (extras : list string) :
  parse_args environ argv = Return (ns, extras) -> dom ns = attributes.
Proof.
  intros (toks & st & st' & Ec & Es & Ed & -> & _)%parse_known_args_inv.
  rewrite (convert_defaults_dom _ _ _ Ed).
  apply (consume_dom _ _ _ _ _ attributes Es).
  - eapply Forall_impl; [by apply classify_entries |].
    intros [s pat] Htok a os e Hpat.
    destruct (Htok _ Hpat) as [_ Hp].
    apply parse_optional_action in Hp. rewrite parser_actions in Hp.
    apply elem_of_cons in Hp as [-> | Hp]; [by left |]. right.
    apply list_elem_of_In, in_map_iff in Hp as (f & <- & _).
    unfold attributes. destruct f; vm_compute dest; set_solver.
  - simpl. rewrite initial_namespace_parser. rewrite !dom_insert_L, dom_empty_L.
    unfold attributes. set_solver.
Qed.

End ParserOutcome.

Lemma parse_args_attributes_witness :
  exists ns,
    parse_args (RT:=TestRuntime.runtime) Sample.environ
      ["--foo"; "--max_depth"; "7"; "--tr=/data"; "--"; "--eta"; "x"]
    = Return (ns, ["--foo"; "--"; "--eta"; "x"])
    /\ dom ns = attributes.
Proof.
  set (ns := <["train" := VStr "/data"]>
               (<["max_depth" := VInt 7]> (defaults (obj:=nat) Sample.environ))).
  assert (H : parse_args (RT:=TestRuntime.runtime) Sample.environ
                ["--foo"; "--max_depth"; "7"; "--tr=/data"; "--"; "--eta"; "x"]
              = Return (ns, ["--foo"; "--"; "--eta"; "x"])) by (vm_compute; reflexivity).
  exists ns. split; [exact H |].
  exact (parse_args_attributes (RT:=TestRuntime.runtime) _ _ _ _ H).
Defined.

Lemma help_flag_exits_witness :
  parse_args (RT:=TestRuntime.runtime) Sample.environ
    ["--max_depth"; "7"; "--help"; "--eta"; "fast"] = SysExit 0
  /\ main (RT:=TestRuntime.runtime) Sample.environ
       ["--max_depth"; "7"; "--help"; "--eta"; "fast"] Sample.world
     = (SysExit 0, Sample.world).
Proof.
  apply (help_flag_exits (RT:=TestRuntime.runtime) Sample.environ
           [Given F_max_depth "7" false] [Given F_eta "fast" false] true Sample.world).
  - cbn [app]. each_item.
  - unfold coercible. each_item.
  - unfold no_help. each_item.
Defined.

Lemma spelling_is_immaterial_witness :
  parse_args (RT:=TestRuntime.runtime) Sample.environ
    ["--max_depth"; "7"; "--eta=0.5"; "--train"; "/data"]
  = parse_args (RT:=TestRuntime.runtime) Sample.environ
      ["--max_depth=7"; "--eta=0.5"; "--train=/data"].
Proof.
  apply (spelling_is_immaterial (RT:=TestRuntime.runtime) Sample.environ
           Sample.invocation MoreSamples.invocation_joined).
  - unfold Sample.invocation. each_item.
  - unfold MoreSamples.invocation_joined. each_item.
  - reflexivity.
Defined.

(** ** The separator [--] *)

Section Separator.
Context {obj : Type} `{RT : Runtime obj}.
Import argparse.

Lemma match_argument_head (a : Action obj) (tok : string * pattern obj) rest suf :
  match_argument a (map snd ((tok :: rest) ++ suf)) = match_argument a (map snd (tok :: rest))
  /\ forall n, match_argument a (map snd (tok :: rest)) = Some n ->
               take n (map fst ((tok :: rest) ++ suf)) = take n (map fst (tok :: rest)).
Proof.
  unfold match_argument. destruct tok as [s pat]. simpl.
  split; [done |]. intros n Hn.
  destruct (kind a); [| by injection Hn as <-].
  destruct pat; by try injection Hn as <-.
Qed.

Lemma short_chain_ext (p : Parser obj) ps ps' e :
  (forall a, match_argument a ps = match_argument a ps') ->
  short_chain p ps e = short_chain p ps' e.
Proof.
  intros H. induction e as [|c e IH]; simpl; [done |].
  destruct (assoc _ _) as [a|]; [| done].
  destruct (kind a); [| done]. by rewrite (H a).
Qed.

(** What follows the strings an option can look at does not change what
    the option does. *)
Lemma consume_optional_app (p : Parser obj) t s rest suf (st : Parsed obj) :
  rest <> [] \/ (forall a, match_argument a (map snd suf) = match_argument a []) ->
  consume_optional p t s (rest ++ suf) st = consume_optional p t s rest st.
Proof.
  intros H.
  assert (Hm : forall a, match_argument a (map snd (rest ++ suf))
                         = match_argument a (map snd rest)).
  { intros a. destruct rest as [|tok rest]; [| apply match_argument_head].
    destruct H as [? | H]; [done | apply H]. }
  assert (Ht : forall a n, match_argument a (map snd rest) = Some n ->
               take n (map fst (rest ++ suf)) = take n (map fst rest)).
  { intros a n Hn. destruct rest as [|tok rest]; [| by eapply match_argument_head].
    unfold match_argument in Hn. simpl in Hn.
    destruct (kind a); [done |]. by injection Hn as <-. }
  unfold consume_optional. destruct t as [[[a|] os] [e|]]; try done.
  - by rewrite (short_chain_ext p _ _ e Hm).
  - rewrite Hm. destruct (match_argument a (map snd rest)) as [n|] eqn:En; [| done].
    by rewrite (Ht a n En).
Qed.

Lemma consume_optional_takes (p : Parser obj) t s rest (st : Parsed obj) r :
  consume_optional p t s rest st = Return r -> r.1 <= length rest.
Proof.
  unfold consume_optional. destruct t as [[[a|] os] [e|]].
  - destruct (match_argument a [pA]) as [[|[|n]]|]; try done.
    + destruct (_ && _); [| done].
      destruct (take_action a [] st); try done. intros [= <-]. simpl. lia.
    + destruct (take_action a [e] st); try done. intros [= <-]. simpl. lia.
  - unfold match_argument. destruct (kind a) eqn:Ek.
    + destruct rest as [|[s' [| |t]] rest]; try done. simpl.
      destruct (take_action _ _ _); try done. intros [= <-]. simpl. lia.
    + unfold take_action. by rewrite Ek.
  - intros [= <-]. simpl. lia.
  - intros [= <-]. simpl. lia.
Qed.

Lemma consume_app (p : Parser obj) toks suf skip (st : Parsed obj) :
  skip <= length toks ->
  (forall s t, last toks <> Some (s, pO t))
  \/ (forall a, match_argument a (map snd suf) = match_argument a []) ->
  consume p (toks ++ suf) skip st = consume p toks skip st ≫= consume p suf 0.
Proof.
  revert skip st. induction toks as [|[s pat] rest IH]; intros skip st Hskip H.
  { simpl in *. replace skip with 0 by lia. done. }
  assert (Hrest : (forall s t, last rest <> Some (s, pO t))
                  \/ (forall a, match_argument a (map snd suf) = match_argument a [])).
  { destruct H as [H | H]; [left | by right].
    destruct rest as [|tok' rest']; [done | apply H]. }
  simpl in *. destruct skip as [|k]; [| apply IH; [lia | done]].
  destruct pat as [| |t]; try (apply IH; [lia | done]).
  rewrite consume_optional_app.
  - destruct (consume_optional p t s rest st) as [r| |] eqn:E; try done. simpl.
    apply IH; [by eapply consume_optional_takes | done].
  - destruct rest as [|tok' rest']; [| by left].
    destruct H as [H | H]; [by destruct (H s t) | by right].
Qed.

Lemma consume_arguments (p : Parser obj) (l : list string) (st : Parsed obj) :
  consume p (map (fun s => (s, pA)) l) 0 st
  = Return (mkParsed (namespace st) (extras st ++ l) (seen st)).
Proof.
  revert st. induction l as [|s l IH]; intros st; simpl.
  - rewrite app_nil_r. by destruct st.
  - rewrite IH. simpl. by rewrite <- app_assoc.
Qed.

Lemma classify_separator (p : Parser obj) (pre post : list string) :
  classify p (pre ++ "--" :: post)
  = toks ← classify p pre;
    Return (toks ++ ("--", if existsb (String.eqb "--") pre then pA else pDash)
                    :: map (fun s => (s, pA)) post)%list.
Proof.
  induction pre as [|s pre IH]; [done |].
  cbn [app classify existsb]. rewrite (String.eqb_sym "--" s).
  destruct (String.eqb s "--"); simpl.
  - by rewrite map_app.
  - destruct (parse_optional p s); try done. simpl. rewrite IH.
    by destruct (classify p pre).
Qed.

Lemma classify_after_separator (p : Parser obj) (pre : list string) toks :
  classify p pre = Return toks -> existsb (String.eqb "--") pre = true ->
  forall s t, last toks <> Some (s, pO t).
Proof.
  revert toks. induction pre as [|s0 pre IH]; intros toks; [done |].
  cbn [classify existsb]. rewrite (String.eqb_sym "--" s0).
  destruct (String.eqb s0 "--"); simpl.
  - intros [= <-] _ s t. clear. revert s0.
    assert (H : forall (x : string * pattern obj) l, (forall t, x.2 <> pO t) ->
                last (x :: map (fun s => (s, pA)) l) <> Some (s, pO t)).
    { intros x l. revert x. induction l as [|y l IHl]; intros x Hx.
      - simpl. intros [= ->]. by eapply Hx.
      - apply (IHl (y, pA)). done. }
    intros s0. by apply H.
  - destruct (parse_optional p s0); try done. simpl.
    destruct (classify p pre) as [toks'| |] eqn:Ec; try done. simpl.
    intros [= <-] Hpre s t. specialize (IH _ eq_refl Hpre s t).
    destruct toks' as [|tok' toks']; [| done].
    destruct pre as [|s1 pre]; [done |]. exfalso. clear -Ec.
    cbn [classify] in Ec. destruct (String.eqb s1 "--"); [done |].
    destruct (parse_optional p s1); try done. simpl in Ec.
    by destruct (classify p pre).
Qed.

Lemma convert_defaults_extras (acts : list (Action obj)) ns ex ex' sn :
  convert_defaults acts (mkParsed ns ex' sn)
  = (st ← convert_defaults acts (mkParsed ns ex sn);
     Return (mkParsed (namespace st) ex' (seen st)))
  /\ forall st, convert_defaults acts (mkParsed ns ex sn) = Return st -> extras st = ex.
Proof.
  revert ns sn. induction acts as [|a acts IH]; intros ns sn.
  { split; [done | by intros st [= <-]]. }
  cbn [convert_defaults].
  assert (H : convert_default (mkParsed ns ex sn) a = Return (mkParsed ns ex sn)
              /\ convert_default (mkParsed ns ex' sn) a = Return (mkParsed ns ex' sn)
           \/ (exists e, convert_default (mkParsed ns ex sn) a = Raise e
                      /\ convert_default (mkParsed ns ex' sn) a = Raise e)
           \/ (exists c, convert_default (mkParsed ns ex sn) a = SysExit c
                      /\ convert_default (mkParsed ns ex' sn) a = SysExit c)
           \/ (exists v, convert_default (mkParsed ns ex sn) a
                         = Return (mkParsed (<[dest a := v]> ns) ex sn)
                      /\ convert_default (mkParsed ns ex' sn) a
                         = Return (mkParsed (<[dest a := v]> ns) ex' sn))).
  { unfold convert_default. simpl. destruct (existsb _ _); [by left |].
    destruct (default a) as [[| | |s| |]|]; try by left.
    destruct (ns !! dest a) as [[| | |s'| |]|]; try by left.
    destruct (String.eqb s s'); [| by left].
    destruct (get_value a s) as [v|e|c]; simpl; right;
      [right; right; by exists v | left; by exists e | right; left; by exists c]. }
  destruct H as [[-> ->] | [(e & -> & ->) | [(c & -> & ->) | (v & -> & ->)]]];
    simpl; try done; apply IH.
Qed.

(** For any parser, [--] and every string after it go to the extras, and
    the strings before it are read as they are without it. *)
Lemma parse_known_args_separator (p : Parser obj) (pre post : list string) :
  parse_known_args p (pre ++ "--" :: post)
  = r ← parse_known_args p pre; Return (r.1, (r.2 ++ "--" :: post)%list).
Proof.
  unfold parse_known_args. rewrite classify_separator.
  destruct (classify p pre) as [toks|e|c] eqn:Ec; cbn [mbind outcome_bind finish];
    [| by destruct e | done].
  assert (Hsep : forall st,
    consume p (("--", if existsb (String.eqb "--") pre then pA else pDash)
               :: map (fun s => (s, pA)) post) 0 st
    = Return (mkParsed (namespace st) ((extras st ++ ["--"]) ++ post) (seen st))).
  { intros st. destruct (existsb (String.eqb "--") pre); cbn [consume];
      by rewrite consume_arguments. }
  rewrite consume_app; [| lia |].
  - destruct (consume p toks 0 _) as [[ns ex sn]|e|c]; cbn [mbind outcome_bind finish];
      [| by destruct e | done].
    rewrite Hsep. cbn [namespace extras seen mbind outcome_bind].
    destruct (convert_defaults_extras (actions p) ns ex
                ((ex ++ ["--"]) ++ post)%list sn) as [-> Hex].
    destruct (convert_defaults _ _) as [st'|e|c]; cbn [mbind outcome_bind finish];
      [| by destruct e | done].
    cbn [namespace extras fst snd]. by rewrite (Hex _ eq_refl), <- app_assoc.
  - destruct (existsb (String.eqb "--") pre) eqn:Epre.
    + left. by eapply classify_after_separator.
    + right. intros a. unfold match_argument. cbn [map snd]. by destruct (kind a).
Qed.

(** X10.  [--] ends the options: the arguments before it are read as they
    are without it, and [--] itself and every argument after it, whatever
    it looks like, are set aside with the unrecognized ones. *)
Theorem separator_ends_options (environ : gmap string string)
    (pre post : list string) :
  parse_args environ (pre ++ "--" :: post)
  = r ← parse_args environ pre; Return (r.1, (r.2 ++ "--" :: post)%list).
Proof. apply parse_known_args_separator. Qed.

End Separator.
